(** * assertroute: the assertion-and-recovery core of [src/assertroute.ts]

    A shallow embedding of the failure-routing part of the library
    ([getCallerName], [summarizeValue], [AssertError], [toAssertError],
    [assert], [handleError], [wrapSync], [wrapAsync], [assertRoute],
    [assertRouteAsync], [isValid]), of the type guards and of the
    assertions on values, strings, arrays and object keys that are built
    on [assert], and of the JavaScript run-time behaviour these functions
    rely on, followed by the properties of that code.

    JavaScript values with identity (objects, arrays, error objects,
    functions written by the user) live in a heap and are referenced by
    location, so that cyclic structures and the identity of a thrown
    exception can be expressed.  Library code is a state-and-exception
    monad over that heap.  User code (the wrapped functions, callbacks and
    assertions) is a parameter of the development: any function from the
    arguments and the heap to a result or an exception and a new heap.

    What is modelled of the language: [undefined], [null], booleans,
    integer-valued and special numbers, BigInts, symbols, strings as
    sequences of UTF-16 code units; plain objects with data properties
    and with accessors whose getter throws; arrays without holes; error
    objects; user functions; the closures and promises that the library
    itself creates.  The conversion [String(v)] of an object, which runs
    its [toString], is user code like the wrapped functions: it may
    throw and may change the heap.  Proxies, objects with their own
    [toJSON], accessors whose getter returns, and arrays with holes are
    not modelled.
    The promise of the async wrapper is described by what it waits for and
    how it goes on once that has settled; the settlement is supplied from
    outside. *)

From Stdlib Require Import ZArith NArith List String Ascii Lia Decimal.
From stdpp Require Import base list sorting.
Import ListNotations.

Set Default Proof Using "Type".

(** ** Strings

    A JavaScript string is a sequence of UTF-16 code units; [length] and
    [slice] count code units.  ASCII literals are injected with [u]. *)

Definition ustring := list N.

Fixpoint u (s : string) : ustring :=
  match s with
  | EmptyString => []
  | String a s' => N_of_ascii a :: u s'
  end.

Arguments u : simpl never.

(** U+2026 HORIZONTAL ELLIPSIS, the truncation marker of the summaries. *)
Definition ELLIPSIS : ustring := [8230%N].

Fixpoint ustring_eqb (a b : ustring) : bool :=
  match a, b with
  | [], [] => true
  | x :: a', y :: b' => (x =? y)%N && ustring_eqb a' b'
  | _, _ => false
  end.

Fixpoint is_prefix (p s : ustring) : bool :=
  match p, s with
  | [], _ => true
  | _ :: _, [] => false
  | a :: p', b :: s' => (a =? b)%N && is_prefix p' s'
  end.

(** [includes s p]: JavaScript's [s.includes(p)]. *)
Fixpoint includes (s p : ustring) : bool :=
  is_prefix p s ||
  match s with
  | [] => false
  | _ :: s' => includes s' p
  end.

(** [join sep parts]: [Array.prototype.join] on strings. *)
Fixpoint join (sep : ustring) (parts : list ustring) : ustring :=
  match parts with
  | [] => []
  | [p] => p
  | p :: rest => p ++ sep ++ join sep rest
  end.

(** [split sep s]: [String.prototype.split] with a one-code-unit
    separator. *)
Fixpoint split (sep : N) (s : ustring) : list ustring :=
  match s with
  | [] => [[]]
  | c :: s' =>
      if (c =? sep)%N then [] :: split sep s'
      else match split sep s' with
           | [] => [[c]]
           | first :: rest => (c :: first) :: rest
           end
  end.

(** ** Numbers

    Only the integer-valued doubles (in the safe range, where the decimal
    rendering is the plain integer) and the special values are modelled. *)

Inductive number :=
| NInt (z : Z)               (* an integer other than -0 *)
| NNegZero
| NNaN
| NInfinity (negative : bool).

Definition digit_unit (d : N) : N := (48 + d)%N.

Fixpoint uint_units (d : Decimal.uint) : ustring :=
  match d with
  | Nil => []
  | D0 r => digit_unit 0 :: uint_units r
  | D1 r => digit_unit 1 :: uint_units r
  | D2 r => digit_unit 2 :: uint_units r
  | D3 r => digit_unit 3 :: uint_units r
  | D4 r => digit_unit 4 :: uint_units r
  | D5 r => digit_unit 5 :: uint_units r
  | D6 r => digit_unit 6 :: uint_units r
  | D7 r => digit_unit 7 :: uint_units r
  | D8 r => digit_unit 8 :: uint_units r
  | D9 r => digit_unit 9 :: uint_units r
  end.

Definition N_to_ustring (n : N) : ustring := uint_units (N.to_uint n).

Definition nat_to_ustring (n : nat) : ustring := N_to_ustring (N.of_nat n).

Definition Z_to_ustring (z : Z) : ustring :=
  match z with
  | Z0 => u "0"
  | Zpos p => N_to_ustring (Npos p)
  | Zneg p => u "-" ++ N_to_ustring (Npos p)
  end.

(** Number::toString *)
Definition number_to_ustring (n : number) : ustring :=
  match n with
  | NInt z => Z_to_ustring z
  | NNegZero => u "0"
  | NNaN => u "NaN"
  | NInfinity false => u "Infinity"
  | NInfinity true => u "-Infinity"
  end.

Definition number_is_finite (n : number) : bool :=
  match n with
  | NInt _ | NNegZero => true
  | NNaN | NInfinity _ => false
  end.

(** ** Values and heap objects *)

Abbreviation loc := nat.
Abbreviation fid := nat.

#[warnings="-register-all"]
Inductive value :=
| VUndefined
| VNull
| VBool (b : bool)
| VNum (n : number)
| VBigInt (z : Z)
| VStr (s : ustring)
| VRef (l : loc)
    (* object, array, error object or user function: lives in the heap *)
| VWrapSync (fallback fn onError catchNonAssertErrors : value)
    (* the closure returned by [wrapSync], with what it captures *)
| VWrapAsync (fallback fn onError catchNonAssertErrors : value)
    (* the async closure returned by [wrapAsync] *)
| VIsValid (assertions : list value)
    (* the closure returned by [isValid] *)
| VPromiseResolved (v : value)
    (* promise of an async closure whose body returned [v] *)
| VPromiseRejected (e : value)
    (* promise of an async closure whose body threw [e] *)
| VPromiseAwaiting (awaited fallback onError catchNonAssertErrors : value)
    (* promise of the [wrapAsync] closure suspended at [await awaited] *)
| VSymbol (description : ustring).
    (* a symbol; the library never compares two symbols, so that their
       identity is left out *)

(** A property is a data property, or an accessor whose getter throws. *)
Inductive prop :=
| PData (v : value)
| PThrowingGetter (e : value).

Definition props := list (ustring * prop).

Inductive errclass := CError | CTypeError | CAssertError.

(** Heap objects.  [ps] are the own enumerable string-keyed properties in
    the order in which [Object.keys] lists them (insertion order for names
    that are not array indices).  An error object keeps its [message] and
    [cause] (own, not enumerable) apart. *)
Inductive obj :=
| OObject (ps : props)
| OArray (elems : list value)
| OFunction (id : fid) (ps : props)
| OError (cls : errclass) (message : ustring) (cause : option value) (ps : props).

(** The heap: location [l] holds the [l]-th object.  A reference to a
    location that holds nothing does not arise in a run; the operations
    below read it as an object without properties. *)
Abbreviation heap := (list obj).

(** What library code asks of user code: the call of a user function,
    and the conversion [String(v)] of a value [v] that is not a
    primitive, which runs the [toString] and [valueOf] methods of [v]. *)
Inductive event :=
| ECall (callee : loc) (args : list value)
| EToString (v : value).

Record world := World { w_heap : heap; w_log : list event }.

(** ** The monad of library code: state and exceptions *)

Inductive res (A : Type) :=
| Ok (a : A)
| Throw (e : value).
Arguments Ok {A} a.
Arguments Throw {A} e.

Definition M (A : Type) := world -> res A * world.

Definition ret {A} (a : A) : M A := fun w => (Ok a, w).

Definition throw {A} (e : value) : M A := fun w => (Throw e, w).

Definition bind {A B} (m : M A) (k : A -> M B) : M B :=
  fun w =>
    match m w with
    | (Ok a, w') => k a w'
    | (Throw e, w') => (Throw e, w')
    end.

(** [try { m } catch (e) { handler e }] *)
Definition try_catch {A} (m : M A) (handler : value -> M A) : M A :=
  fun w =>
    match m w with
    | (Ok a, w') => (Ok a, w')
    | (Throw e, w') => handler e w'
    end.

Notation "'let*' x ':=' m 'in' k" := (bind m (fun x => k))
  (at level 10, x name, m at level 100, k at level 200).

Notation "'let*' ' pat ':=' m 'in' k" :=
  (bind m (fun x => match x with pat => k end))
  (at level 10, pat pattern, m at level 100, k at level 200).

Definition get_heap : M heap := fun w => (Ok (w_heap w), w).

(** Allocation of a new object: the next free location. *)
Definition alloc (o : obj) : M loc :=
  fun w => (Ok (length (w_heap w)), World (w_heap w ++ [o]) (w_log w)).

Definition store (l : loc) (o : obj) : M unit :=
  fun w => (Ok tt, World (<[l := o]> (w_heap w)) (w_log w)).

(** A [TypeError] raised by the run time itself.  The message texts are
    those of V8; nothing below depends on them. *)
Definition throwTypeError {A} (message : ustring) : M A :=
  let* l := alloc (OError CTypeError message None []) in
  throw (VRef l).

(** ** Run-time operations on values *)

Inductive jstype :=
| TUndefined | TObject | TBoolean | TNumber | TBigInt | TString | TFunction
| TSymbol.

Definition typeof (h : heap) (v : value) : jstype :=
  match v with
  | VUndefined => TUndefined
  | VNull => TObject
  | VBool _ => TBoolean
  | VNum _ => TNumber
  | VBigInt _ => TBigInt
  | VStr _ => TString
  | VRef l =>
      match h !! l with
      | Some (OFunction _ _) => TFunction
      | _ => TObject
      end
  | VWrapSync _ _ _ _ | VWrapAsync _ _ _ _ | VIsValid _ => TFunction
  | VPromiseResolved _ | VPromiseRejected _ | VPromiseAwaiting _ _ _ _ => TObject
  | VSymbol _ => TSymbol
  end.

Definition type_name (t : jstype) : ustring :=
  match t with
  | TUndefined => u "undefined"
  | TObject => u "object"
  | TBoolean => u "boolean"
  | TNumber => u "number"
  | TBigInt => u "bigint"
  | TString => u "string"
  | TFunction => u "function"
  | TSymbol => u "symbol"
  end.

Definition is_function (h : heap) (v : value) : bool :=
  match typeof h v with
  | TFunction => true
  | _ => false
  end.

(** ToBoolean *)
Definition truthy (v : value) : bool :=
  match v with
  | VUndefined | VNull => false
  | VBool b => b
  | VNum (NInt z) => negb (z =? 0)%Z
  | VNum NNegZero | VNum NNaN => false
  | VNum (NInfinity _) => true
  | VBigInt z => negb (z =? 0)%Z
  | VStr [] => false
  | VStr (_ :: _) => true
  | _ => true
  end.

Definition is_undefined (v : value) : bool :=
  match v with
  | VUndefined => true
  | _ => false
  end.

(** [v == null] *)
Definition is_nullish (v : value) : bool :=
  match v with
  | VUndefined | VNull => true
  | _ => false
  end.

Definition is_array (h : heap) (v : value) : option (list value) :=
  match v with
  | VRef l =>
      match h !! l with
      | Some (OArray es) => Some es
      | _ => None
      end
  | _ => None
  end.

(** [v instanceof Error] *)
Definition instanceof_Error (h : heap) (v : value) : bool :=
  match v with
  | VRef l =>
      match h !! l with
      | Some (OError _ _ _ _) => true
      | _ => false
      end
  | _ => false
  end.

(** [v instanceof AssertError] *)
Definition instanceof_AssertError (h : heap) (v : value) : bool :=
  match v with
  | VRef l =>
      match h !! l with
      | Some (OError CAssertError _ _ _) => true
      | _ => false
      end
  | _ => false
  end.

(** Own enumerable string-keyed properties, in the order of
    [Object.keys]. *)
Definition own_props (h : heap) (v : value) : props :=
  match v with
  | VRef l =>
      match h !! l with
      | Some (OObject ps) => ps
      | Some (OArray es) => imap (fun i e => (nat_to_ustring i, PData e)) es
      | Some (OFunction _ ps) => ps
      | Some (OError _ _ _ ps) => ps
      | None => []
      end
  | VStr s => imap (fun i c => (nat_to_ustring i, PData (VStr [c]))) s
  | _ => []
  end.

Definition Object_keys (h : heap) (v : value) : list ustring :=
  map fst (own_props h v).

Fixpoint assoc (k : ustring) (ps : props) : option prop :=
  match ps with
  | [] => None
  | (k', p) :: rest => if ustring_eqb k k' then Some p else assoc k rest
  end.

Fixpoint set_prop (k : ustring) (p : prop) (ps : props) : props :=
  match ps with
  | [] => [(k, p)]
  | (k', p') :: rest =>
      if ustring_eqb k k' then (k, p) :: rest else (k', p') :: set_prop k p rest
  end.

(** [v.k] for a property name [k] that is not built into the class of [v]
    (the library reads [value], [onError] and [catchNonAssertErrors]):
    the own property if there is one, [undefined] otherwise. *)
Definition Get (v : value) (k : ustring) : M value :=
  let* h := get_heap in
  match assoc k (own_props h v) with
  | Some (PData x) => ret x
  | Some (PThrowingGetter e) => throw e
  | None => ret VUndefined
  end.

(** [{...v}]: the own enumerable properties read in order. *)
Fixpoint spread_props (ps : props) : res props :=
  match ps with
  | [] => Ok []
  | (k, PData v) :: rest =>
      match spread_props rest with
      | Ok rest' => Ok ((k, PData v) :: rest')
      | Throw e => Throw e
      end
  | (_, PThrowingGetter e) :: _ => Throw e
  end.

Definition spread (v : value) : M props :=
  fun w => (spread_props (own_props (w_heap w) v), w).

(** ** [JSON.stringify]

    The modelled objects have no [toJSON] method.  The serializer keeps
    the stack of the objects it is inside of and fails on re-entering one
    of them.  The recursion is on a fuel that bounds the nesting depth;
    [stringify_fuel] shows that one more than the size of the heap is
    enough. *)

Definition hex_digit (n : N) : N :=
  if (n <? 10)%N then (48 + n)%N else (87 + n)%N.

Definition unicode_escape (c : N) : ustring :=
  [92; 117; hex_digit ((c / 4096) mod 16); hex_digit ((c / 256) mod 16);
   hex_digit ((c / 16) mod 16); hex_digit (c mod 16)]%N.

Definition escape_unit (c : N) : ustring :=
  if (c =? 8)%N then u "\b"
  else if (c =? 9)%N then u "\t"
  else if (c =? 10)%N then u "\n"
  else if (c =? 12)%N then u "\f"
  else if (c =? 13)%N then u "\r"
  else if (c =? 34)%N then [92; 34]%N
  else if (c =? 92)%N then [92; 92]%N
  else if (c <? 32)%N then unicode_escape c
  else [c].

Definition is_high_surrogate (c : N) : bool := (55296 <=? c)%N && (c <=? 56319)%N.
Definition is_low_surrogate (c : N) : bool := (56320 <=? c)%N && (c <=? 57343)%N.

Fixpoint quote_units (s : ustring) : ustring :=
  match s with
  | [] => []
  | c :: s' =>
      if is_high_surrogate c then
        match s' with
        | d :: s'' =>
            if is_low_surrogate d then c :: d :: quote_units s''
            else unicode_escape c ++ quote_units s'
        | [] => unicode_escape c
        end
      else if is_low_surrogate c then unicode_escape c ++ quote_units s'
      else escape_unit c ++ quote_units s'
  end.

(** QuoteJSONString *)
Definition quote (s : ustring) : ustring := [34%N] ++ quote_units s ++ [34%N].

(** Why a serialization throws. *)
Inductive json_failure :=
| FCyclic                 (* TypeError: Converting circular structure to JSON *)
| FBigInt                 (* TypeError: Do not know how to serialize a BigInt *)
| FGetter (e : value).    (* a property getter threw [e] *)

Inductive sres (A : Type) :=
| SOk (a : A)
| SFail (f : json_failure).
Arguments SOk {A} a.
Arguments SFail {A} f.

Section Serialize.
(** The serializer for the values one level down; [None] is out of fuel. *)
Variable rec : value -> option (sres (option ustring)).

(** SerializeJSONArray: [undefined] elements are written as [null]. *)
Fixpoint stringify_elems (es : list value) : option (sres (list ustring)) :=
  match es with
  | [] => Some (SOk [])
  | e :: es' =>
      match rec e with
      | None => None
      | Some (SFail f) => Some (SFail f)
      | Some (SOk s) =>
          match stringify_elems es' with
          | None => None
          | Some (SFail f) => Some (SFail f)
          | Some (SOk ss) => Some (SOk (default (u "null") s :: ss))
          end
      end
  end.

(** SerializeJSONObject: members whose value is [undefined] are left
    out. *)
Fixpoint stringify_members (ps : props) : option (sres (list ustring)) :=
  match ps with
  | [] => Some (SOk [])
  | (_, PThrowingGetter e) :: _ => Some (SFail (FGetter e))
  | (k, PData v) :: ps' =>
      match rec v with
      | None => None
      | Some (SFail f) => Some (SFail f)
      | Some (SOk s) =>
          match stringify_members ps' with
          | None => None
          | Some (SFail f) => Some (SFail f)
          | Some (SOk ms) =>
              Some (SOk match s with
                        | Some text => (quote k ++ u ":" ++ text) :: ms
                        | None => ms
                        end)
          end
      end
  end.
End Serialize.

Definition in_stack (l : loc) (stack : list loc) : bool :=
  existsb (Nat.eqb l) stack.

Definition stringify_array (rec : value -> option (sres (option ustring)))
    (es : list value) : option (sres (option ustring)) :=
  match stringify_elems rec es with
  | None => None
  | Some (SFail f) => Some (SFail f)
  | Some (SOk ss) => Some (SOk (Some (u "[" ++ join (u ",") ss ++ u "]")))
  end.

Definition stringify_object (rec : value -> option (sres (option ustring)))
    (ps : props) : option (sres (option ustring)) :=
  match stringify_members rec ps with
  | None => None
  | Some (SFail f) => Some (SFail f)
  | Some (SOk ms) => Some (SOk (Some (u "{" ++ join (u ",") ms ++ u "}")))
  end.

(** SerializeJSONProperty *)
Fixpoint stringify (fuel : nat) (h : heap) (stack : list loc) (v : value)
    : option (sres (option ustring)) :=
  match fuel with
  | O => None
  | S fuel' =>
      match v with
      | VUndefined => Some (SOk None)
      | VNull => Some (SOk (Some (u "null")))
      | VBool true => Some (SOk (Some (u "true")))
      | VBool false => Some (SOk (Some (u "false")))
      | VNum n =>
          Some (SOk (Some (if number_is_finite n then number_to_ustring n
                           else u "null")))
      | VBigInt _ => Some (SFail FBigInt)
      | VStr s => Some (SOk (Some (quote s)))
      | VRef l =>
          match h !! l with
          | Some (OFunction _ _) => Some (SOk None)
          | Some (OArray es) =>
              if in_stack l stack then Some (SFail FCyclic)
              else stringify_array (stringify fuel' h (l :: stack)) es
          | Some (OObject ps) | Some (OError _ _ _ ps) =>
              if in_stack l stack then Some (SFail FCyclic)
              else stringify_object (stringify fuel' h (l :: stack)) ps
          | None => Some (SOk (Some (u "{}")))
          end
      | VWrapSync _ _ _ _ | VWrapAsync _ _ _ _ | VIsValid _ | VSymbol _ =>
          Some (SOk None)
      | VPromiseResolved _ | VPromiseRejected _ | VPromiseAwaiting _ _ _ _ =>
          Some (SOk (Some (u "{}")))
      end
  end.

(** [JSON.stringify(v)]: a string, [undefined] ([None]) or an exception. *)
Definition JSON_stringify (v : value) : M (option ustring) :=
  let* h := get_heap in
  match stringify (S (length h)) h [] v with
  | Some (SOk s) => ret s
  | Some (SFail FCyclic) => throwTypeError (u "Converting circular structure to JSON")
  | Some (SFail FBigInt) => throwTypeError (u "Do not know how to serialize a BigInt")
  | Some (SFail (FGetter e)) => throw e
  | None => ret None
  end.

(** ** [getCallerName]

    [stack] is what [new Error().stack] holds where the function runs:
    absent in run times without stack traces, otherwise the trace text. *)

(** The class [\s] *)
Definition is_space (c : N) : bool :=
  existsb (N.eqb c) [9; 10; 11; 12; 13; 32; 160; 5760; 8232; 8233; 8239; 8287; 12288; 65279]%N
  || (8192 <=? c)%N && (c <=? 8202)%N.

(** The class [\w] *)
Definition is_word (c : N) : bool :=
  (48 <=? c)%N && (c <=? 57)%N || (65 <=? c)%N && (c <=? 90)%N
  || (97 <=? c)%N && (c <=? 122)%N || (c =? 95)%N.

(** The class [[\w.$<>\[\]]] *)
Definition is_name_unit (c : N) : bool :=
  is_word c || existsb (N.eqb c) [46; 36; 60; 62; 91; 93]%N.

Fixpoint take_while (p : N -> bool) (s : ustring) : ustring :=
  match s with
  | c :: s' => if p c then c :: take_while p s' else []
  | [] => []
  end.

Fixpoint drop_while (p : N -> bool) (s : ustring) : ustring :=
  match s with
  | c :: s' => if p c then drop_while p s' else s
  | [] => []
  end.

(** [/at\s+([\w.$<>\[\]]+)/] matched at the start of [s]: the text of the
    group.  Both repetitions are greedy and no space is a name unit, so no
    backtracking can make a failed match succeed. *)
Definition match_at (s : ustring) : option ustring :=
  match s with
  | a :: t :: s' =>
      if (a =? 97)%N && (t =? 116)%N then
        match take_while is_space s' with
        | [] => None
        | _ :: _ =>
            match take_while is_name_unit (drop_while is_space s') with
            | [] => None
            | name => Some name
            end
        end
      else None
  | _ => None
  end.

(** [line.match(/at\s+([\w.$<>\[\]]+)/)?.[1]]: the leftmost match. *)
Fixpoint match_caller (line : ustring) : option ustring :=
  match match_at line with
  | Some name => Some name
  | None =>
      match line with
      | [] => None
      | _ :: line' => match_caller line'
      end
  end.

Definition getCallerName (stack : option ustring) (stackOffset : nat)
    : option ustring :=
  match stack with
  | None | Some [] => None
  | Some text =>
      match split 10 text !! stackOffset with
      | Some line => match_caller line
      | None => None
      end
  end.

(** [xs.map(f)] for an [f] with effects *)
Fixpoint mapM {A B} (f : A -> M B) (xs : list A) : M (list B) :=
  match xs with
  | [] => ret []
  | x :: xs' =>
      let* y := f x in
      let* ys := mapM f xs' in
      ret (y :: ys)
  end.

(** [parts.join(sep)] where [undefined] parts are written as nothing *)
Definition join_opt (sep : ustring) (parts : list (option ustring)) : ustring :=
  join sep (map (default []) parts).

Definition as_string (v : value) : ustring :=
  match v with
  | VStr s => s
  | _ => []
  end.

(** * The library *)

Section AssertRoute.

(** The body of user function [id]: from the arguments and the heap to
    a result or an exception, and the heap it leaves. *)
Variable call : fid -> list value -> heap -> res value * heap.

(** What [new Error().stack] holds in the [AssertError] constructor. *)
Variable stackTrace : option ustring.

(** [String(v)] for a [v] that is not a primitive.  The conversion runs
    the [toString] and [valueOf] methods that [v] has or inherits, which
    may be user code: like a user function it is any function from the
    heap to a text or an exception and a new heap. *)
Variable objectToString : value -> heap -> res ustring * heap.

(** The conversion of an object, recorded in the log. *)
Definition convert_user (v : value) : M ustring :=
  fun w =>
    let (r, h') := objectToString v (w_heap w) in
    (r, World h' (w_log w ++ [EToString v])).

(** [String(v)] on a primitive *)
Definition primitive_text (v : value) : option ustring :=
  match v with
  | VUndefined => Some (u "undefined")
  | VNull => Some (u "null")
  | VBool true => Some (u "true")
  | VBool false => Some (u "false")
  | VNum n => Some (number_to_ustring n)
  | VBigInt z => Some (Z_to_ustring z)
  | VStr s => Some s
  | VSymbol description => Some (u "Symbol(" ++ description ++ u ")")
  | _ => None
  end.

Definition is_primitive (v : value) : bool :=
  match primitive_text v with
  | Some _ => true
  | None => false
  end.

(** [String(v)] *)
Definition ToString (v : value) : M ustring :=
  match primitive_text v with
  | Some text => ret text
  | None => convert_user v
  end.

Definition summarizeValue (v : value) : M ustring :=
  let* h := get_heap in
  let t := typeof h v in
  match v with
  | VNull => ret (u "null")
  | _ =>
      match is_array h v with
      | Some elems =>
          let* parts := mapM JSON_stringify (take 3 elems) in
          let sample := join_opt (u ", ") parts in
          ret (u "array(len=" ++ nat_to_ustring (length elems)
               ++ u ", sample=[" ++ sample
               ++ (if 3 <? length elems then u ", " ++ ELLIPSIS else [])
               ++ u "])")
      | None =>
          match t with
          | TObject =>
              let keys := take 3 (Object_keys h v) in
              ret (u "object(keys=[" ++ join (u ", ") keys
                   ++ (if 3 <? length keys then u ", " ++ ELLIPSIS else [])
                   ++ u "])")
          | TString =>
              let s := as_string v in
              ret (u "string(len=" ++ nat_to_ustring (length s)
                   ++ u ", sample=" ++ [34%N] ++ take 12 s
                   ++ (if 12 <? length s then ELLIPSIS else [])
                   ++ [34%N] ++ u ")")
          | _ =>
              let* text := ToString v in
              ret (type_name t ++ u "(" ++ text ++ u ")")
          end
      end
  end.

(** The lines [const base = message || `${caller ?? 'assert'} failed`]
    and [const fullMsg = typeSummary ? `${base} (got: ${typeSummary})` :
    base] of the constructor. *)
Definition full_message (caller : option ustring) (message : ustring)
    (typeSummary : option ustring) : ustring :=
  let base := match message with
              | [] => default (u "assert") caller ++ u " failed"
              | _ :: _ => message
              end in
  match typeSummary with
  | Some (c :: s) => base ++ u " (got: " ++ (c :: s) ++ u ")"
  | Some [] | None => base
  end.

Definition caller_value (caller : option ustring) : value :=
  match caller with
  | Some name => VStr name
  | None => VUndefined
  end.

(** The own enumerable properties of a new [AssertError] before [info]
    is assigned: the class field [code] and the assigned [name].  Where
    [info] comes in this order depends on how class fields are compiled;
    nothing below depends on it. *)
Definition failure_props : props :=
  [(u "code", PData (VStr (u "ASSERT_FAILED")));
   (u "name", PData (VStr (u "AssertError")))].

(** [info?.value !== undefined ? summarizeValue(info.value) : undefined] *)
Definition type_summary (info : value) : M (option ustring) :=
  let* infoValue := (if is_nullish info then ret VUndefined
                     else Get info (u "value")) in
  if is_undefined infoValue then ret None
  else let* s := summarizeValue infoValue in
       ret (Some s).

(** [new AssertError(message, info, cause)]; an absent [info] or [cause]
    is [VUndefined]. *)
Definition new_AssertError (message : ustring) (info cause : value) : M value :=
  let caller := getCallerName stackTrace 3 in
  let* typeSummary := type_summary info in
  let fullMsg := full_message caller message typeSummary in
  let kept := if truthy cause then Some cause else None in
  let* this := alloc (OError CAssertError fullMsg kept failure_props) in
  let* copied := spread info in
  let* infoObject := alloc (OObject (set_prop (u "caller") (PData (caller_value caller)) copied)) in
  let* _ := store this (OError CAssertError fullMsg kept
                          (failure_props ++ [(u "info", PData (VRef infoObject))])) in
  ret (VRef this).

Definition error_message (h : heap) (e : value) : ustring :=
  match e with
  | VRef l =>
      match h !! l with
      | Some (OError _ message _ _) => message
      | _ => []
      end
  | _ => []
  end.

Definition toAssertError (e : value) : M value :=
  let* h := get_heap in
  if instanceof_AssertError h e then ret e
  else
    let* err := (if instanceof_Error h e then ret e
                 else let* text := ToString e in
                      let* l := alloc (OError CError text None []) in
                      ret (VRef l)) in
    let* h' := get_heap in
    let* info := alloc (OObject [(u "cause", PData err)]) in
    new_AssertError (error_message h' err) (VRef info) err.

(** [assert(condition, message, info)]; [message = None] is the omitted
    argument. *)
Definition assert (condition : value) (message : option ustring) (info : value)
    : M value :=
  let message := default (u "Assertion failed") message in
  if truthy condition then ret VUndefined
  else let* e := new_AssertError message info VUndefined in
       throw e.

(** A call into user code, recorded in the log. *)
Definition call_user (l : loc) (id : fid) (args : list value) : M value :=
  fun w =>
    let (r, h') := call id args (w_heap w) in
    (r, World h' (w_log w ++ [ECall l args])).

Section Handlers.
(** [f(...args)] for any value [f]; tied below by [apply]. *)
Variable app : value -> list value -> M value.

(** [f?.(...args)] *)
Definition optional_call (f : value) (args : list value) : M value :=
  if is_nullish f then ret VUndefined else app f args.

Definition handleError_with (e onError catchNonAssertErrors fallback : value)
    : M value :=
  let* h := get_heap in
  if instanceof_AssertError h e then
    let* _ := optional_call onError [e] in
    ret fallback
  else if truthy catchNonAssertErrors then
    let* ae := toAssertError e in
    let* _ := optional_call onError [ae] in
    ret fallback
  else throw e.

(** [for (const a of assertions) a(...args)] *)
Fixpoint run_assertions (assertions : list value) (args : list value) : M unit :=
  match assertions with
  | [] => ret tt
  | a :: rest =>
      let* _ := app a args in
      run_assertions rest args
  end.
End Handlers.

(** The promise of an async function whose body behaves as [m]. *)
Definition settle (m : M value) : M value :=
  fun w =>
    match m w with
    | (Ok v, w') => (Ok (VPromiseResolved v), w')
    | (Throw e, w') => (Ok (VPromiseRejected e), w')
    end.

(** [f(...args)].  For the closure of [wrapAsync] this is the part of
    the body that runs before the call returns: up to [await], or to the
    end when [fn] throws before that. *)
Fixpoint apply (f : value) (args : list value) {struct f} : M value :=
  match f with
  | VRef l =>
      let* h := get_heap in
      match h !! l with
      | Some (OFunction id _) => call_user l id args
      | _ => throwTypeError (u "fn is not a function")
      end
  | VWrapSync fallback fn onError catchNonAssertErrors =>
      try_catch (apply fn args)
        (fun e => handleError_with apply e onError catchNonAssertErrors fallback)
  | VWrapAsync fallback fn onError catchNonAssertErrors =>
      fun w =>
        match apply fn args w with
        | (Ok awaited, w') =>
            (Ok (VPromiseAwaiting awaited fallback onError catchNonAssertErrors), w')
        | (Throw e, w') =>
            settle (handleError_with apply e onError catchNonAssertErrors fallback) w'
        end
  | VIsValid assertions =>
      try_catch
        (let* _ := run_assertions apply assertions args in ret (VBool true))
        (fun e =>
           let* h := get_heap in
           if instanceof_AssertError h e then ret (VBool false) else throw e)
  | _ => throwTypeError (u "fn is not a function")
  end.

Definition handleError := handleError_with apply.

(** How an awaited value settles. *)
Inductive settlement :=
| Fulfilled (v : value)
| Rejected (e : value).

(** The rest of the body of the [wrapAsync] closure, run when the value
    awaited by its promise [p] settles as [s]: the promise that [p]
    becomes. *)
Definition resume (p : value) (s : settlement) : M value :=
  match p with
  | VPromiseAwaiting _ fallback onError catchNonAssertErrors =>
      match s with
      | Fulfilled v => ret (VPromiseResolved v)
      | Rejected e => settle (handleError e onError catchNonAssertErrors fallback)
      end
  | _ => ret p
  end.

(** The parameter pattern [{ onError, catchNonAssertErrors = false }:
    AssertRouteOptions = {}] applied to the argument [opts]. *)
Definition read_options (opts : value) : M (value * value) :=
  match opts with
  | VUndefined => ret (VUndefined, VBool false)
  | VNull => throwTypeError (u "Cannot destructure property 'onError' of 'object null' as it is null.")
  | _ =>
      let* onError := Get opts (u "onError") in
      let* catchNonAssertErrors := Get opts (u "catchNonAssertErrors") in
      ret (onError,
           if is_undefined catchNonAssertErrors then VBool false
           else catchNonAssertErrors)
  end.

Definition wrapSync (fallback fn opts : value) : M value :=
  let* '(onError, catchNonAssertErrors) := read_options opts in
  ret (VWrapSync fallback fn onError catchNonAssertErrors).

Definition wrapAsync (fallback fn opts : value) : M value :=
  let* '(onError, catchNonAssertErrors) := read_options opts in
  ret (VWrapAsync fallback fn onError catchNonAssertErrors).

(** The parameters [(fallbackOrFn, fnOrOpts, options, ...args)] bound to
    the argument list of a call. *)
Definition nth_arg (i : nat) (argv : list value) : value :=
  default VUndefined (argv !! i).

Definition rest_args (argv : list value) : list value := drop 3 argv.

(** The [if (typeof fallbackOrFn === 'function')] of both entry points:
    [(fallback, fn, opts)]. *)
Definition dispatch (h : heap) (argv : list value) : value * value * value :=
  if is_function h (nth_arg 0 argv)
  then (VUndefined, nth_arg 0 argv, nth_arg 1 argv)
  else (nth_arg 0 argv, nth_arg 1 argv, nth_arg 2 argv).

(** [assertRoute(...argv)] *)
Definition assertRoute (argv : list value) : M value :=
  let* h := get_heap in
  let '(fallback, fn, opts) := dispatch h argv in
  let* wrapped := wrapSync fallback fn opts in
  match rest_args argv with
  | [] => ret wrapped
  | args => apply wrapped args
  end.

(** [assertRouteAsync(...argv)] *)
Definition assertRouteAsync (argv : list value) : M value :=
  let* h := get_heap in
  let '(fallback, fn, opts) := dispatch h argv in
  let* wrapped := wrapAsync fallback fn opts in
  match rest_args argv with
  | [] => ret wrapped
  | args => apply wrapped args
  end.

(** [isValid(...assertions)] *)
Definition isValid (assertions : list value) : value := VIsValid assertions.

End AssertRoute.

(** * The guards

    The type guards and the assertions built on [assert] that can be
    expressed over the modelled values: the ones on objects, arrays and
    their keys, and the typed ones. *)

(** ** Code-unit order and [Array.prototype.sort]

    [keys.sort()] without a comparator orders strings by their UTF-16
    code units.  Strings that compare as equal are the same string, so
    the outcome is the one sorted arrangement of the list, whatever the
    algorithm of the engine. *)

(** [a < b] on strings *)
Fixpoint ustring_ltb (a b : ustring) : bool :=
  match a, b with
  | _, [] => false
  | [], _ :: _ => true
  | x :: a', y :: b' => (x <? y)%N || ((x =? y)%N && ustring_ltb a' b')
  end.

Definition ustring_le (a b : ustring) : Prop := ustring_ltb b a = false.

#[global] Instance ustring_le_dec (a b : ustring) : Decision (ustring_le a b) :=
  decide (ustring_ltb b a = false).

(** [keys.sort()] *)
Definition sort_keys (keys : list ustring) : list ustring :=
  merge_sort ustring_le keys.

(** [a.length === b.length && a.every((k, i) => k === b[i])] *)
Definition same_items (a b : list ustring) : bool :=
  (length a =? length b)
  && forallb (fun '(i, k) => match b !! i with
                             | Some k' => ustring_eqb k k'
                             | None => false
                             end)
             (imap pair a).

(** ** Type guards *)

Definition jstype_eqb (a b : jstype) : bool :=
  match a, b with
  | TUndefined, TUndefined | TObject, TObject | TBoolean, TBoolean
  | TNumber, TNumber | TBigInt, TBigInt | TString, TString
  | TFunction, TFunction | TSymbol, TSymbol => true
  | _, _ => false
  end.

(** [x === null] *)
Definition is_null (x : value) : bool :=
  match x with
  | VNull => true
  | _ => false
  end.

(** [x === true] and [x === false] *)
Definition is_true (x : value) : bool :=
  match x with
  | VBool true => true
  | _ => false
  end.

Definition is_false (x : value) : bool :=
  match x with
  | VBool false => true
  | _ => false
  end.

(** [Number.isFinite(x)] *)
Definition Number_isFinite (x : value) : bool :=
  match x with
  | VNum n => number_is_finite n
  | _ => false
  end.

(** [Array.isArray(x)] *)
Definition Array_isArray (h : heap) (x : value) : bool :=
  match is_array h x with
  | Some _ => true
  | None => false
  end.

Definition isString (h : heap) (x : value) : bool :=
  jstype_eqb (typeof h x) TString.

Definition isNumber (h : heap) (x : value) : bool :=
  jstype_eqb (typeof h x) TNumber && Number_isFinite x.

Definition isBoolean (h : heap) (x : value) : bool :=
  jstype_eqb (typeof h x) TBoolean.

Definition isArray (h : heap) (x : value) : bool :=
  Array_isArray h x.

Definition isObject (h : heap) (x : value) : bool :=
  jstype_eqb (typeof h x) TObject && negb (is_null x) && negb (Array_isArray h x).

Definition isFunction (h : heap) (x : value) : bool :=
  jstype_eqb (typeof h x) TFunction.

Definition isDefined (x : value) : bool :=
  negb (is_undefined x).

Definition isNonNull (x : value) : bool :=
  negb (is_null x).

Definition isPresent (x : value) : bool :=
  negb (is_null x) && negb (is_undefined x).

(** ** Reading objects *)

(** [Object.keys(x)], which throws on [null] and [undefined]. *)
Definition Object_keys_of (x : value) : M (list ustring) :=
  if is_nullish x
  then throwTypeError (u "Cannot convert undefined or null to object")
  else let* h := get_heap in ret (Object_keys h x).

Definition prop_value (p : ustring * prop) : value :=
  match snd p with
  | PData v => v
  | PThrowingGetter _ => VUndefined
  end.

(** [Object.values(x)]: the own enumerable properties are read in order,
    through their getters. *)
Definition Object_values (x : value) : M (list value) :=
  if is_nullish x
  then throwTypeError (u "Cannot convert undefined or null to object")
  else let* copied := spread x in ret (map prop_value copied).

Section Guards.

Variable stackTrace : option ustring.
Variable objectToString : value -> heap -> res ustring * heap.

(** What [typeOfDetailed(x)] does from [x instanceof Date] on, for an [x]
    that is neither [null] nor an array.  These lines inspect [Date], the
    DOM global [HTMLElement] and the names of constructors, which are
    outside what is modelled; they are taken as any computation that
    yields a string or throws, and what is proved of the callers holds
    whatever they do. *)
Variable typeOfDetailed_rest : value -> M ustring.

(** [typeOfDetailed(x)] *)
Definition typeOfDetailed (x : value) : M ustring :=
  if is_null x then ret (u "null")
  else
    let* h := get_heap in
    match is_array h x with
    | Some elems =>
        let len := length elems in
        let* parts := mapM JSON_stringify (take 3 elems) in
        let sample := join_opt (u ", ") parts in
        ret (u "array(len=" ++ nat_to_ustring len
             ++ (if 0 <? len
                 then u ", sample=[" ++ sample
                      ++ (if 3 <? len then u ", " ++ ELLIPSIS else [])
                      ++ u "]"
                 else [])
             ++ u ")")
    | None => typeOfDetailed_rest x
    end.

Local Abbreviation assert := (assert stackTrace objectToString).
Local Abbreviation new_AssertError := (new_AssertError stackTrace objectToString).

(** The object literal [{ ...info, got: <got> }]: the properties of
    [info] are copied before [got] is computed. *)
Definition info_with_got (info : value) (got : M value) : M value :=
  let* literal := alloc (OObject []) in
  let* copied := spread info in
  let* g := got in
  let* _ := store literal (OObject (set_prop (u "got") (PData g) copied)) in
  ret (VRef literal).

(** [got: typeOfDetailed(x)] *)
Definition got_detailed (x : value) : M value :=
  let* s := typeOfDetailed x in
  ret (VStr s).

Definition assertArray (x : value) (message : option ustring) (info : value)
    : M value :=
  let message := default (u "Expected array") message in
  let* h := get_heap in
  let condition := isArray h x in
  let* infoGot := info_with_got info
                    (let* h' := get_heap in
                     if Array_isArray h' x then ret (VStr (u "array"))
                     else got_detailed x) in
  assert (VBool condition) (Some message) infoGot.

Definition assertObject (x : value) (message : option ustring) (info : value)
    : M value :=
  let message := default (u "Expected object") message in
  let* h := get_heap in
  let condition := isObject h x in
  let* infoGot := info_with_got info
                    (let* h' := get_heap in
                     ret (VStr (if Array_isArray h' x then u "array"
                                else if is_null x then u "null"
                                else type_name (typeof h' x)))) in
  assert (VBool condition) (Some message) infoGot.

(** The shape [assert(isT(x), message, { ...info, got: typeOfDetailed(x) })]
    of the typed guards. *)
Definition assert_typed (condition : heap -> value -> bool) (x : value)
    (message : ustring) (info : value) : M value :=
  let* h := get_heap in
  let holds := condition h x in
  let* infoGot := info_with_got info (got_detailed x) in
  assert (VBool holds) (Some message) infoGot.

Definition assertString (x : value) (message : option ustring) (info : value) :=
  assert_typed isString x (default (u "Expected string") message) info.

Definition assertNumber (x : value) (message : option ustring) (info : value) :=
  assert_typed isNumber x (default (u "Expected number") message) info.

Definition assertBoolean (x : value) (message : option ustring) (info : value) :=
  assert_typed isBoolean x (default (u "Expected boolean") message) info.

Definition assertFunction (x : value) (message : option ustring) (info : value) :=
  assert_typed isFunction x (default (u "Expected function") message) info.

Definition assertDefined (x : value) (message : option ustring) (info : value) :=
  assert_typed (fun _ => isDefined) x (default (u "Expected defined") message) info.

Definition assertNonNull (x : value) (message : option ustring) (info : value) :=
  assert_typed (fun _ => isNonNull) x (default (u "Expected non-null") message) info.

Definition assertPresent (x : value) (message : option ustring) (info : value) :=
  assert_typed (fun _ => isPresent) x (default (u "Expected value present") message) info.

(** The [expect] wrappers return their argument. *)
Definition expectString (x : value) (message : option ustring) : M value :=
  let* _ := assertString x message VUndefined in ret x.

Definition expectNumber (x : value) (message : option ustring) : M value :=
  let* _ := assertNumber x message VUndefined in ret x.

Definition expectBoolean (x : value) (message : option ustring) : M value :=
  let* _ := assertBoolean x message VUndefined in ret x.

Definition expectArray (x : value) (message : option ustring) : M value :=
  let* _ := assertArray x message VUndefined in ret x.

Definition expectObject (x : value) (message : option ustring) : M value :=
  let* _ := assertObject x message VUndefined in ret x.

(** [assertNever(x, message)]: [throw new AssertError(message, { got: x })] *)
Definition assertNever (x : value) (message : option ustring) : M value :=
  let message := default (u "Unreachable") message in
  let* literal := alloc (OObject [(u "got", PData x)]) in
  let* e := new_AssertError message (VRef literal) VUndefined in
  throw e.

(** ** Strings *)

Definition string_length (x : value) : nat := length (as_string x).

Definition assertNonEmptyString (x : value) (message : option ustring) : M value :=
  let message := default (u "Expected non-empty string") message in
  let* _ := assertString x (Some message) VUndefined in
  assert (VBool (0 <? string_length x)) (Some message) VUndefined.

(** [needles.every((n) => s.includes(n))] *)
Definition assertStringIncludesAll (x : value) (needles : list ustring) : M value :=
  let* _ := assertString x (Some (u "Expected string")) VUndefined in
  let s := as_string x in
  assert (VBool (forallb (includes s) needles))
    (Some (u "Expected string to include all of [" ++ join (u ", ") needles ++ u "]"))
    VUndefined.

(** [needles.some((n) => s.includes(n))] *)
Definition assertStringIncludesAny (x : value) (needles : list ustring) : M value :=
  let* _ := assertString x (Some (u "Expected string")) VUndefined in
  let s := as_string x in
  assert (VBool (existsb (includes s) needles))
    (Some (u "Expected string to include any of [" ++ join (u ", ") needles ++ u "]"))
    VUndefined.

(** ** Arrays *)

Definition array_items (h : heap) (x : value) : list value :=
  default [] (is_array h x).

Definition assertArrayNotEmpty (x : value) (message : option ustring) : M value :=
  let message := default (u "Expected non-empty array") message in
  let* _ := assertArray x (Some message) VUndefined in
  let* h := get_heap in
  assert (VBool (0 <? length (array_items h x))) (Some message) VUndefined.

(** [arr.every((item) => typeof item === 'string')] and its siblings *)
Definition assertArrayOnlyHasStrings (x : value) (message : option ustring) : M value :=
  let* _ := assertArray x (Some (default (u "Expected array") message)) VUndefined in
  let* h := get_heap in
  assert (VBool (forallb (fun item => jstype_eqb (typeof h item) TString)
                   (array_items h x)))
    (Some (default (u "Expected array to only contain strings") message)) VUndefined.

Definition assertArrayOnlyHasNumbers (x : value) (message : option ustring) : M value :=
  let* _ := assertArray x (Some (default (u "Expected array") message)) VUndefined in
  let* h := get_heap in
  assert (VBool (forallb (fun item => jstype_eqb (typeof h item) TNumber)
                   (array_items h x)))
    (Some (default (u "Expected array to only contain numbers") message)) VUndefined.

Definition assertArrayEveryIsTruthy (x : value) (message : option ustring) : M value :=
  let* _ := assertArray x (Some (default (u "Expected array") message)) VUndefined in
  let* h := get_heap in
  assert (VBool (forallb truthy (array_items h x)))
    (Some (default (u "Expected every item to be truthy") message)) VUndefined.

Definition assertArrayEveryIsFalsy (x : value) (message : option ustring) : M value :=
  let* _ := assertArray x (Some (default (u "Expected array") message)) VUndefined in
  let* h := get_heap in
  assert (VBool (forallb (fun item => negb (truthy item)) (array_items h x)))
    (Some (default (u "Expected every item to be falsy") message)) VUndefined.

Definition assertArrayIsConsistentPrimitive (x : value) (message : option ustring)
    : M value :=
  let message := default (u "Expected non-empty array of the same primitive type")
                   message in
  let* _ := assertArray x (Some (u "Expected array")) VUndefined in
  let* h := get_heap in
  let arr := array_items h x in
  let* _ := assert (VBool (0 <? length arr)) (Some (u "Expected array to be non-empty"))
              VUndefined in
  let first := default VUndefined (arr !! 0) in
  if isString h first then
    assert (VBool (forallb (isString h) arr)) (Some message) VUndefined
  else if isNumber h first then
    assert (VBool (forallb (isNumber h) arr)) (Some message) VUndefined
  else if isBoolean h first then
    assert (VBool (forallb (isBoolean h) arr)) (Some message) VUndefined
  else assert (VBool false) (Some message) VUndefined.

(** ** Objects and their keys *)

Definition assertNonEmptyRecord (x : value) (message : option ustring) : M value :=
  let message := default (u "Expected non-empty object") message in
  let* _ := assertObject x (Some message) VUndefined in
  let* keys := Object_keys_of x in
  assert (VBool (0 <? length keys)) (Some message) VUndefined.

Definition assertSameKeys (obj expected : value) (message : option ustring) : M value :=
  let* _ := assertObject obj (Some (default (u "Expected object") message)) VUndefined in
  let* objKeys := Object_keys_of obj in
  let a := sort_keys objKeys in
  let* expectedKeys := Object_keys_of expected in
  let b := sort_keys expectedKeys in
  assert (VBool (same_items a b)) (Some (default (u "Expected same keys") message))
    VUndefined.

Definition assertAllKeysSet (obj : value) (message : option ustring) : M value :=
  let* _ := assertObject obj (Some (default (u "Expected object") message)) VUndefined in
  let* vals := Object_values obj in
  assert (VBool (forallb (fun v => negb (is_null v) && negb (is_undefined v)) vals))
    (Some (default (u "Expected all keys to be set (not null/undefined)") message))
    VUndefined.

Definition assertAnyKeyNull (obj : value) (message : option ustring) : M value :=
  let* _ := assertObject obj (Some (default (u "Expected object") message)) VUndefined in
  let* vals := Object_values obj in
  assert (VBool (existsb is_null vals))
    (Some (default (u "Expected any key to be null") message)) VUndefined.

(** ** Truth values and nullish values *)

Definition assertTrue (x : value) (message : option ustring) : M value :=
  assert (VBool (is_true x)) (Some (default (u "Expected true") message)) VUndefined.

Definition assertFalse (x : value) (message : option ustring) : M value :=
  assert (VBool (is_false x)) (Some (default (u "Expected false") message)) VUndefined.

Definition assertNull (x : value) (message : option ustring) : M value :=
  assert (VBool (is_null x)) (Some (default (u "Expected null") message)) VUndefined.

Definition assertUndefined (x : value) (message : option ustring) : M value :=
  assert (VBool (is_undefined x)) (Some (default (u "Expected undefined") message))
    VUndefined.

End Guards.

(** * A small program to run the library on

    The heap [objects] holds user functions at the locations [0] to [8]
    (function [i] has the body [call i]) and, after them, option objects
    and sample data. *)

Module Demo.

Definition stackTrace : option ustring := None.

Definition objectToString (v : value) (h : heap) : res ustring * heap :=
  (Ok (u "[object Object]"), h).

Definition call (id : fid) (args : list value) (h : heap) : res value * heap :=
  match id with
  | 0 => (* () => 42 *)
      (Ok (VNum (NInt 42)), h)
  | 1 => (* () => { assert(false); return 99; } *)
      match assert stackTrace objectToString (VBool false) None VUndefined (World h []) with
      | (Ok _, w) => (Ok (VNum (NInt 99)), w_heap w)
      | (Throw e, w) => (Throw e, w_heap w)
      end
  | 2 => (* () => { throw new Error('boom'); } *)
      (Throw (VRef (length h)), h ++ [OError CError (u "boom") None []])
  | 3 => (* (err) => { throw 'callback'; } *)
      (Throw (VStr (u "callback")), h)
  | 4 => (* (x) => x *)
      (Ok (default VUndefined (args !! 0)), h)
  | 5 => (* (err) => {} *)
      (Ok VUndefined, h)
  | 6 => (* () => 1 *)
      (Ok (VNum (NInt 1)), h)
  | 7 => (* () => { throw 'boom'; } *)
      (Throw (VStr (u "boom")), h)
  | 8 => (* async () => { await tick(); assert(false); }: the promise is a
           user object, here a plain one *)
      (Ok (VRef (length h)), h ++ [OObject []])
  | _ => (Ok VUndefined, h)
  end.

Definition returns42 := VRef 0.
Definition failsAssert := VRef 1.
Definition throwsError := VRef 2.
Definition throwingCallback := VRef 3.
Definition identity := VRef 4.
Definition quietCallback := VRef 5.
Definition returns1 := VRef 6.
Definition throwsString := VRef 7.
Definition failsLater := VRef 8.
Definition notifyQuietly := VRef 9.     (* { onError: quietCallback } *)
Definition notifyAndThrow := VRef 10.   (* { onError: throwingCallback } *)
Definition recoverAll := VRef 11.       (* { catchNonAssertErrors: true } *)
Definition selfArray := VRef 12.        (* a = []; a.push(a) *)
Definition selfArrayInfo := VRef 13.    (* { value: a } *)
Definition guardedArray := VRef 14.     (* [{ get secret() { throw 'denied'; } }] *)
Definition guarded := VRef 15.          (* { get secret() { throw 'denied'; } } *)
Definition fourNumbers := VRef 16.      (* [1, 2, 3, 4] *)
Definition fourNumbersInfo := VRef 17.  (* { value: [1, 2, 3, 4] } *)
Definition selfObject := VRef 18.       (* o = {}; o.self = o *)
Definition silentError := VRef 19.      (* new Error() *)
Definition earlierFailure := VRef 20.   (* an AssertError thrown earlier *)

Definition objects : heap :=
  [OFunction 0 []; OFunction 1 []; OFunction 2 []; OFunction 3 [];
   OFunction 4 []; OFunction 5 []; OFunction 6 []; OFunction 7 [];
   OFunction 8 [];
   OObject [(u "onError", PData quietCallback)];
   OObject [(u "onError", PData throwingCallback)];
   OObject [(u "catchNonAssertErrors", PData (VBool true))];
   OArray [selfArray];
   OObject [(u "value", PData selfArray)];
   OArray [guarded];
   OObject [(u "secret", PThrowingGetter (VStr (u "denied")))];
   OArray [VNum (NInt 1); VNum (NInt 2); VNum (NInt 3); VNum (NInt 4)];
   OObject [(u "value", PData fourNumbers)];
   OObject [(u "self", PData selfObject)];
   OError CError [] None [];
   OError CAssertError (u "Assertion failed") None
     [(u "code", PData (VStr (u "ASSERT_FAILED")));
      (u "name", PData (VStr (u "AssertError")))]].

Definition start : world := World objects [].

Definition apply := apply call stackTrace objectToString.
Definition assertRoute := assertRoute call stackTrace objectToString.
Definition assertRouteAsync := assertRouteAsync call stackTrace objectToString.
Definition resume := resume call stackTrace objectToString.
Definition summarizeValue := summarizeValue objectToString.
Definition toAssertError := toAssertError stackTrace objectToString.
Definition assert := assert stackTrace objectToString.

End Demo.

(** * Sample data for the guards *)

Module Samples.

Definition stackTrace : option ustring := None.

Definition objectToString (v : value) (h : heap) : res ustring * heap :=
  (Ok (u "[object Object]"), h).

(** The remainder of [typeOfDetailed] where it answers, and where the
    global [HTMLElement] it inspects is missing, as outside a browser: the
    [instanceof] test then throws.  Of the class of that exception only
    that it is not [AssertError] matters below. *)
Definition typeOfDetailed_rest (x : value) : M ustring := ret (u "detail").

Definition noDOM (x : value) : M ustring :=
  throwTypeError (u "HTMLElement is not defined").

(** [String(v)] in a program whose objects have a [toString] that
    throws. *)
Definition refusing (v : value) (h : heap) : res ustring * heap :=
  (Throw (VStr (u "no text")), h).

Definition ba := VRef 0.          (* { b: 1, a: null } *)
Definition ab := VRef 1.          (* { a: 'x', b: 2 } *)
Definition empty := VRef 2.       (* {} *)
Definition words := VRef 3.       (* ['x', 'y'] *)
Definition nothing := VRef 4.     (* [] *)
Definition notNumbers := VRef 5.  (* [NaN, 1] *)
Definition numbers := VRef 6.     (* [1, 2] *)
Definition guarded := VRef 7.     (* { get secret() { throw 'denied'; } } *)
Definition selfArray := VRef 8.   (* a = []; a.push(a) *)
Definition record := VRef 9.      (* { a: 1, b: 2, c: 3, d: 4 } *)
Definition throwsObject := VRef 10. (* () => { throw ba; } *)
Definition recover := VRef 11.    (* { catchNonAssertErrors: true } *)

(** The bodies of the user functions: function [0] throws the object
    [ba]. *)
Definition call (id : fid) (args : list value) (h : heap) : res value * heap :=
  match id with
  | 0 => (Throw ba, h)
  | _ => (Ok VUndefined, h)
  end.

Definition objects : heap :=
  [OObject [(u "b", PData (VNum (NInt 1))); (u "a", PData VNull)];
   OObject [(u "a", PData (VStr (u "x"))); (u "b", PData (VNum (NInt 2)))];
   OObject [];
   OArray [VStr (u "x"); VStr (u "y")];
   OArray [];
   OArray [VNum NNaN; VNum (NInt 1)];
   OArray [VNum (NInt 1); VNum (NInt 2)];
   OObject [(u "secret", PThrowingGetter (VStr (u "denied")))];
   OArray [selfArray];
   OObject [(u "a", PData (VNum (NInt 1))); (u "b", PData (VNum (NInt 2)));
            (u "c", PData (VNum (NInt 3))); (u "d", PData (VNum (NInt 4)))];
   OFunction 0 [];
   OObject [(u "catchNonAssertErrors", PData (VBool true))]].

Definition start : world := World objects [].

End Samples.

(** * The contracts, as relations *)

Definition is_promise (v : value) : bool :=
  match v with
  | VPromiseResolved _ | VPromiseRejected _ | VPromiseAwaiting _ _ _ _ => true
  | _ => false
  end.

(** The promise that settles as the outcome [r] says. *)
Definition promise_of (r : res value) : value :=
  match r with
  | Ok v => VPromiseResolved v
  | Throw e => VPromiseRejected e
  end.


Section Contracts.

Variable call : fid -> list value -> heap -> res value * heap.
Variable stackTrace : option ustring.
Variable objectToString : value -> heap -> res ustring * heap.

Local Abbreviation apply := (apply call stackTrace objectToString).

(** [routed onError fallback e w r w']: a Failure [e] caught in world [w]
    is routed to [fallback].  The callback, when there is one, is called
    once with [e]; the outcome is [fallback] unless the callback throws,
    and then it is what the callback threw. *)
Inductive routed (onError fallback e : value) (w : world)
    : res value -> world -> Prop :=
| routed_silent :
    is_nullish onError = true ->
    routed onError fallback e w (Ok fallback) w
| routed_notified v w' :
    is_nullish onError = false ->
    apply onError [e] w = (Ok v, w') ->
    routed onError fallback e w (Ok fallback) w'
| routed_callback_threw x w' :
    is_nullish onError = false ->
    apply onError [e] w = (Throw x, w') ->
    routed onError fallback e w (Throw x) w'.

(** [all_pass args assertions w w']: run in order from world [w], each
    of the [assertions] applied to [args] returns; [w'] is the world
    after the last one. *)
Inductive all_pass (args : list value) : list value -> world -> world -> Prop :=
| all_pass_nil w :
    all_pass args [] w w
| all_pass_cons a rest v w w1 w2 :
    apply a args w = (Ok v, w1) ->
    all_pass args rest w1 w2 ->
    all_pass args (a :: rest) w w2.

(** [settles_on fallback onError c e w outcome]: how the promise of the
    async wrapper settles when an exception [e] is observed in world [w],
    either thrown by [fn] before it suspends or as the rejection of what
    [fn] returned. *)
Definition settles_on (fallback onError c e : value) (w : world)
    (outcome : res value * world) : Prop :=
  (instanceof_AssertError (w_heap w) e = true ->
     exists r w',
       outcome = (Ok (promise_of r), w') /\ routed onError fallback e w r w')
  /\
  (instanceof_AssertError (w_heap w) e = false -> truthy c = false ->
     outcome = (Ok (VPromiseRejected e), w))
  /\
  (instanceof_AssertError (w_heap w) e = false -> truthy c = true ->
     match toAssertError stackTrace objectToString e w with
     | (Ok ae, w1) =>
         instanceof_AssertError (w_heap w1) ae = true
         /\ exists r w',
              outcome = (Ok (promise_of r), w')
              /\ routed onError fallback ae w1 r w'
     | (Throw x, w1) => outcome = (Ok (VPromiseRejected x), w1)
     end).

End Contracts.

(** [JSON.stringify(v)] does not throw in heap [h]. *)
Definition serializable (h : heap) (v : value) : bool :=
  match stringify (S (length h)) h [] v with
  | Some (SOk _) => true
  | _ => false
  end.

(** The Failure that the constructor leaves in the heap: the error object
    at the first free location [n], its [info] object right after it. *)
Definition failure_at (stackTrace : option ustring) (n : loc) (message : ustring)
    (summary : option ustring) (cause : option value) (copied : props) : list obj :=
  let caller := getCallerName stackTrace 3 in
  [OError CAssertError (full_message caller message summary) cause
     (failure_props ++ [(u "info", PData (VRef (S n)))]);
   OObject (set_prop (u "caller") (PData (caller_value caller)) copied)].

(** [v] is not a reference to a location that is still free. *)
Definition allocated (h : heap) (v : value) : Prop :=
  match v with
  | VRef l => l < length h
  | _ => True
  end.

(** The heap in which [toAssertError] has wrapped the error object [err]
    that stands for the caught value: the literal [{ cause: err }] first,
    then the Failure. *)
Definition wrapped_in (stackTrace : option ustring) (h : heap) (err : value) : heap :=
  h ++ [OObject [(u "cause", PData err)]]
    ++ failure_at stackTrace (S (length h)) (error_message h err) None (Some err)
         [(u "cause", PData err)].

(** The conversions that [toAssertError] asks for when it is given [e]:
    [String(e)], unless [e] is an error object or a primitive. *)
Definition conversions (h : heap) (e : value) : list event :=
  if instanceof_Error h e || is_primitive e then [] else [EToString e].

(** The summary of an array whose sampled elements serialize to [parts]. *)
Definition array_summary (elems : list value) (parts : list (option ustring))
    : ustring :=
  u "array(len=" ++ nat_to_ustring (length elems)
  ++ u ", sample=[" ++ join_opt (u ", ") parts
  ++ (if 3 <? length elems then u ", " ++ ELLIPSIS else [])
  ++ u "])".

(** [extends w w']: [w'] has the log of [w] and all its objects; it may
    have new objects. *)
Definition extends (w w' : world) : Prop :=
  w_log w' = w_log w
  /\ forall l o, w_heap w !! l = Some o -> w_heap w' !! l = Some o.

(** ** The guards, as contracts *)

(** How many of the guards hold. *)
Definition count_true (bs : list bool) : nat :=
  length (List.filter id bs).

Definition guards_passed (h : heap) (x : value) : list bool :=
  [isString h x; isNumber h x; isBoolean h x; isArray h x; isObject h x;
   isFunction h x].

(** The values that no guard accepts: [undefined], [null], the BigInts,
    the symbols, [NaN] and the infinities. *)
Definition unguarded (x : value) : bool :=
  match x with
  | VUndefined | VNull | VBigInt _ | VSymbol _ => true
  | VNum n => negb (number_is_finite n)
  | _ => false
  end.

(** An assertion passes: it returns [undefined].  The one thing it
    leaves is the object [{ got: ... }] that it has built for the message
    of a failure; the log and the objects of the heap are as before. *)
Definition passes (w : world) (r : res value * world) : Prop :=
  exists got,
    r = (Ok VUndefined,
         World (w_heap w ++ [OObject [(u "got", PData got)]]) (w_log w)).

(** An assertion fails: it throws a Failure whose message is the one
    resolved from [message], with no summary; the log and the objects of
    the heap are as before. *)
Definition throws_failure (stackTrace : option ustring) (message : ustring)
    (w : world) (r : res value * world) : Prop :=
  exists e w',
    r = (Throw e, w')
    /\ instanceof_AssertError (w_heap w') e = true
    /\ instanceof_AssertError (w_heap w) e = false
    /\ error_message (w_heap w') e
       = full_message (getCallerName stackTrace 3) message None
    /\ extends w w'.

(** A computation that, when it returns, has changed nothing. *)
Definition reads_only {A B} (f : A -> M B) : Prop :=
  forall x w b w', f x w = (Ok b, w') -> w' = w.

(** The world in which the [got] entry of [{ ...info, got: ... }] is
    computed: the literal is there, still empty. *)
Definition with_literal (w : world) : world :=
  World (w_heap w ++ [OObject []]) (w_log w).

(** The contract of a typed guard [assert(isT(x), message, { got:
    typeOfDetailed(x) })]: what [typeOfDetailed(x)] throws is thrown,
    whatever [x] is; where it returns, the guard passes exactly on the
    values that [isT] accepts and throws a Failure on the others. *)
Definition typed_guard_contract (stackTrace : option ustring)
    (typeOfDetailed : value -> M ustring)
    (isT : heap -> value -> bool) (expected : ustring)
    (guard : value -> option ustring -> value -> M value) : Prop :=
  forall x message w,
    match typeOfDetailed x (with_literal w) with
    | (Throw e, w') => guard x message VUndefined w = (Throw e, w')
    | (Ok _, _) =>
        if isT (w_heap w) x
        then passes w (guard x message VUndefined w)
        else throws_failure stackTrace (default expected message) w
               (guard x message VUndefined w)
    end.

(** A non-empty list of strings only, of finite numbers only, or of
    booleans only. *)
Definition same_primitive (elems : list value) : bool :=
  match elems with
  | [] => false
  | _ :: _ =>
      forallb (fun v => match v with VStr _ => true | _ => false end) elems
      || forallb Number_isFinite elems
      || forallb (fun v => match v with VBool _ => true | _ => false end) elems
  end.

(** The contract of an assertion on all items of an array: it returns
    exactly on the arrays whose items all satisfy [q]. *)
Definition array_every_contract (q : value -> bool) (x : value) (w : world)
    (r : res value * world) : Prop :=
  match r with
  | (Ok v, w') =>
      v = VUndefined /\ extends w w'
      /\ exists elems, is_array (w_heap w) x = Some elems /\ forallb q elems = true
  | (Throw e, w') =>
      forall elems, is_array (w_heap w) x = Some elems -> forallb q elems = false
  end.

(** The contract of an assertion [x === c] on one value [c]. *)
Definition strict_contract (stackTrace : option ustring) (c : value)
    (expected : ustring) (x : value) (message : option ustring) (w : world)
    (r : res value * world) : Prop :=
  (x = c -> r = (Ok VUndefined, w))
  /\ (x <> c -> throws_failure stackTrace (default expected message) w r).

(** * Properties *)

(** ** The fuel of [JSON_stringify] is enough *)

Lemma in_stack_elem_of (l : loc) (stack : list loc) :
  in_stack l stack = true <-> l ∈ stack.
Proof.
  unfold in_stack. induction stack as [|x stack IH]; simpl.
  - split; [discriminate | intros H; inversion H].
  - rewrite orb_true_iff, IH, elem_of_cons, Nat.eqb_eq. tauto.
Qed.

Lemma stack_bounded (n : nat) (stack : list loc) :
  NoDup stack -> (forall l, l ∈ stack -> l < n) -> length stack <= n.
Proof.
  intros Hnd Hlt.
  assert (Hsub : stack ⊆+ seq 0 n).
  { apply NoDup_submseteq; [exact Hnd|].
    intros l Hl. apply elem_of_seq. specialize (Hlt l Hl). lia. }
  apply submseteq_length in Hsub. rewrite length_seq in Hsub. exact Hsub.
Qed.

Lemma stringify_elems_fuel (rec : value -> option (sres (option ustring))) es :
  (forall v, rec v <> None) -> stringify_elems rec es <> None.
Proof.
  intros Hrec. induction es as [|e es IH]; simpl; [discriminate|].
  destruct (rec e) as [[s|f]|] eqn:He; [|discriminate|by apply Hrec in He].
  destruct (stringify_elems rec es) as [[ss|f]|]; [discriminate|discriminate|done].
Qed.

Lemma stringify_members_fuel (rec : value -> option (sres (option ustring))) ps :
  (forall v, rec v <> None) -> stringify_members rec ps <> None.
Proof.
  intros Hrec. induction ps as [|[k [v|e]] ps IH]; simpl; [discriminate| |discriminate].
  destruct (rec v) as [[s|f]|] eqn:He; [|discriminate|by apply Hrec in He].
  destruct (stringify_members rec ps) as [[ss|f]|]; [discriminate|discriminate|done].
Qed.

Lemma stringify_fuel_stack (h : heap) (fuel : nat) :
  forall (stack : list loc) (v : value),
    NoDup stack ->
    (forall l, l ∈ stack -> l < length h) ->
    length h < fuel + length stack ->
    stringify fuel h stack v <> None.
Proof.
  induction fuel as [|fuel IH]; intros stack v Hnd Hlt Hfuel.
  - pose proof (stack_bounded _ _ Hnd Hlt). simpl in Hfuel. lia.
  - assert (Hrec : forall l, l < length h -> in_stack l stack = false ->
                     forall x, stringify fuel h (l :: stack) x <> None).
    { intros l Hl Hin x. apply IH.
      - constructor; [|exact Hnd].
        intros Hmem. apply in_stack_elem_of in Hmem. congruence.
      - intros l' Hl'. apply elem_of_cons in Hl' as [->|Hl']; auto.
      - simpl. lia. }
    destruct v; simpl; try discriminate.
    + destruct b; discriminate.
    + destruct (h !! l) as [o|] eqn:Hl; [|discriminate].
      apply lookup_lt_Some in Hl.
      destruct o as [ps|es|id ps|cls msg cause ps]; try discriminate;
        destruct (in_stack l stack) eqn:Hin; try discriminate.
      * unfold stringify_object.
        pose proof (stringify_members_fuel _ ps (Hrec l Hl Hin)).
        destruct (stringify_members _ ps) as [[ms|f]|]; [discriminate|discriminate|done].
      * unfold stringify_array.
        pose proof (stringify_elems_fuel _ es (Hrec l Hl Hin)).
        destruct (stringify_elems _ es) as [[ms|f]|]; [discriminate|discriminate|done].
      * unfold stringify_object.
        pose proof (stringify_members_fuel _ ps (Hrec l Hl Hin)).
        destruct (stringify_members _ ps) as [[ms|f]|]; [discriminate|discriminate|done].
Qed.

(** [JSON_stringify] never stops for lack of fuel. *)
Lemma stringify_fuel (h : heap) (v : value) :
  stringify (S (length h)) h [] v <> None.
Proof.
  apply stringify_fuel_stack.
  - constructor.
  - intros l Hl. inversion Hl.
  - simpl. lia.
Qed.

(** ** The monad *)

Lemma bind_ok {A B} (m : M A) (k : A -> M B) w a w' :
  m w = (Ok a, w') -> bind m k w = k a w'.
Proof. intros H. unfold bind. rewrite H. reflexivity. Qed.

Lemma bind_throw {A B} (m : M A) (k : A -> M B) w e w' :
  m w = (Throw e, w') -> bind m k w = (Throw e, w').
Proof. intros H. unfold bind. rewrite H. reflexivity. Qed.

Ltac munfold :=
  repeat progress (unfold bind, ret, throw, get_heap, Get, alloc, store, spread,
                   throwTypeError; cbn beta iota).

(** ** The summarizer *)

Section Summaries.

Variable objectToString : value -> heap -> res ustring * heap.

Local Abbreviation summarizeValue := (summarizeValue objectToString).

Lemma JSON_stringify_ok v w :
  serializable (w_heap w) v = true ->
  exists s, JSON_stringify v w = (Ok s, w).
Proof.
  unfold serializable, JSON_stringify. munfold.
  destruct (stringify _ _ _ v) as [[s|f]|]; try discriminate.
  intros _. by exists s.
Qed.

Lemma JSON_stringify_throws v w :
  serializable (w_heap w) v = false ->
  exists e w', JSON_stringify v w = (Throw e, w').
Proof.
  unfold serializable, JSON_stringify. munfold.
  pose proof (stringify_fuel (w_heap w) v) as Hfuel.
  destruct (stringify _ _ _ v) as [[s|f]|]; [discriminate| |done].
  intros _. destruct f; eexists _, _; reflexivity.
Qed.

Lemma mapM_stringify_ok vs w :
  forallb (serializable (w_heap w)) vs = true ->
  exists parts, mapM JSON_stringify vs w = (Ok parts, w).
Proof.
  induction vs as [|v vs IH]; simpl; intros Hall.
  - by eexists.
  - apply andb_true_iff in Hall as [Hv Hvs].
    destruct (JSON_stringify_ok v w Hv) as [s Hs].
    destruct (IH Hvs) as [parts Hparts].
    exists (s :: parts). erewrite bind_ok by exact Hs.
    erewrite bind_ok by exact Hparts. reflexivity.
Qed.

Lemma mapM_stringify_throws vs w :
  forallb (serializable (w_heap w)) vs = false ->
  exists e w', mapM JSON_stringify vs w = (Throw e, w').
Proof.
  induction vs as [|v vs IH]; simpl; intros Hall; [discriminate|].
  destruct (serializable (w_heap w) v) eqn:Hv; simpl in Hall.
  - destruct (JSON_stringify_ok v w Hv) as [s Hs].
    destruct (IH Hall) as (e & w' & Hthrow).
    exists e, w'. erewrite bind_ok by exact Hs.
    erewrite bind_throw by exact Hthrow. reflexivity.
  - destruct (JSON_stringify_throws v w Hv) as (e & w' & Hthrow).
    exists e, w'. erewrite bind_throw by exact Hthrow. reflexivity.
Qed.

Lemma summarizeValue_array v elems parts w :
  is_array (w_heap w) v = Some elems ->
  mapM JSON_stringify (take 3 elems) w = (Ok parts, w) ->
  summarizeValue v w = (Ok (array_summary elems parts), w).
Proof.
  intros Harr Hparts. unfold summarizeValue. unfold bind at 1, get_heap.
  rewrite Harr. destruct v; try discriminate.
  erewrite bind_ok by exact Hparts. reflexivity.
Qed.

Lemma summarizeValue_array_throws v elems e w w' :
  is_array (w_heap w) v = Some elems ->
  mapM JSON_stringify (take 3 elems) w = (Throw e, w') ->
  summarizeValue v w = (Throw e, w').
Proof.
  intros Harr Hparts. unfold summarizeValue. unfold bind at 1, get_heap.
  rewrite Harr. destruct v; try discriminate.
  erewrite bind_throw by exact Hparts. reflexivity.
Qed.

Lemma ToString_primitive v text w :
  primitive_text v = Some text -> ToString objectToString v w = (Ok text, w).
Proof. unfold ToString. by intros ->. Qed.

(** Of the values that are not arrays only the functions are converted
    by their own [toString]. *)
Lemma summarizeValue_plain v w :
  is_array (w_heap w) v = None ->
  typeof (w_heap w) v <> TFunction ->
  exists s, summarizeValue v w = (Ok s, w).
Proof.
  intros Harr Hfun. unfold summarizeValue. unfold bind at 1, get_heap.
  rewrite Harr.
  destruct v as [| |[]| | | |l| | | | | | |]; cbn [typeof] in *;
    try congruence; try (eexists; reflexivity).
  destruct (w_heap w !! l) as [[]|]; try congruence; eexists; reflexivity.
Qed.

Lemma summarizeValue_function v w :
  typeof (w_heap w) v = TFunction ->
  summarizeValue v w
  = (let* text := ToString objectToString v in
     ret (u "function(" ++ text ++ u ")")) w.
Proof.
  intros Hfun. unfold summarizeValue. unfold bind at 1, get_heap.
  assert (Harr : is_array (w_heap w) v = None).
  { destruct v; try reflexivity. cbn [typeof is_array] in *.
    by destruct (w_heap w !! l) as [[]|]. }
  rewrite Harr, Hfun. by destruct v.
Qed.

(** The first element on which the serialization fails gives the
    exception. *)
Lemma mapM_stringify_first_throw vs w :
  forallb (serializable (w_heap w)) vs = false ->
  exists i x e w',
    vs !! i = Some x
    /\ forallb (serializable (w_heap w)) (take i vs) = true
    /\ serializable (w_heap w) x = false
    /\ JSON_stringify x w = (Throw e, w')
    /\ mapM JSON_stringify vs w = (Throw e, w').
Proof.
  induction vs as [|v vs IH]; simpl; intros Hall; [discriminate|].
  destruct (serializable (w_heap w) v) eqn:Hv; simpl in Hall.
  - destruct (JSON_stringify_ok v w Hv) as [s Hs].
    destruct (IH Hall) as (i & x & e & w' & Hi & Hbefore & Hx & Hthrow & Hrun).
    exists (S i), x, e, w'. repeat split; try assumption.
    + cbn [take forallb]. by rewrite Hv, Hbefore.
    + erewrite bind_ok by exact Hs. by erewrite bind_throw by exact Hrun.
  - destruct (JSON_stringify_throws v w Hv) as (e & w' & Hthrow).
    exists 0, v, e, w'. repeat split; try assumption.
    by erewrite bind_throw by exact Hthrow.
Qed.


End Summaries.


(** ** Building a Failure *)

Section Failures.

Variable stackTrace : option ustring.
Variable objectToString : value -> heap -> res ustring * heap.

Local Abbreviation summarizeValue := (summarizeValue objectToString).
Local Abbreviation type_summary := (type_summary objectToString).
Local Abbreviation new_AssertError := (new_AssertError stackTrace objectToString).
Local Abbreviation toAssertError := (toAssertError stackTrace objectToString).
Local Abbreviation assert := (assert stackTrace objectToString).

Lemma store_first (h : heap) (a b c : obj) :
  <[length h := b]> ((h ++ [a]) ++ [c]) = h ++ [b; c].
Proof.
  rewrite <- app_assoc. rewrite insert_app_r_alt by lia.
  rewrite Nat.sub_diag. reflexivity.
Qed.

Lemma own_props_alloc h v o :
  allocated h v -> own_props (h ++ [o]) v = own_props h v.
Proof.
  destruct v; try reflexivity.
  intros Hl. unfold own_props. rewrite lookup_app_l by exact Hl. reflexivity.
Qed.

(** The constructor succeeds when the [value] entry of [info], if any,
    can be summarized and [info] can be copied. *)
Lemma new_AssertError_ok message info cause w copied summary :
  allocated (w_heap w) info ->
  type_summary info w = (Ok summary, w) ->
  spread_props (own_props (w_heap w) info) = Ok copied ->
  new_AssertError message info cause w
  = (Ok (VRef (length (w_heap w))),
     World (w_heap w ++ failure_at stackTrace (length (w_heap w)) message summary
                          (if truthy cause then Some cause else None) copied)
           (w_log w)).
Proof.
  intros Halloc Hsummary Hcopy.
  unfold new_AssertError. erewrite bind_ok by exact Hsummary.
  munfold. cbn [w_heap w_log]. rewrite own_props_alloc by exact Halloc.
  rewrite Hcopy. cbn [w_heap w_log]. rewrite store_first.
  rewrite length_app. cbn [length]. rewrite Nat.add_1_r. reflexivity.
Qed.
Lemma type_summary_no_value info w :
  assoc (u "value") (own_props (w_heap w) info) = None ->
  type_summary info w = (Ok None, w).
Proof.
  intros Hv. unfold type_summary. munfold.
  destruct (is_nullish info); [reflexivity|]. rewrite Hv. reflexivity.
Qed.

Lemma wrap_error h log l :
  l < length h ->
  (let* info := alloc (OObject [(u "cause", PData (VRef l))]) in
   new_AssertError (error_message h (VRef l)) (VRef info) (VRef l)) (World h log)
  = (Ok (VRef (S (length h))), World (wrapped_in stackTrace h (VRef l)) log).
Proof.
  intros Hl. unfold bind at 1, alloc. cbn [w_heap w_log].
  erewrite new_AssertError_ok with (summary := None)
                                   (copied := [(u "cause", PData (VRef l))]).
  - cbn [w_heap w_log truthy]. rewrite length_app. cbn [length].
    rewrite Nat.add_1_r. unfold wrapped_in. rewrite <- app_assoc. reflexivity.
  - cbn [w_heap allocated]. rewrite length_app. cbn [length]. lia.
  - apply type_summary_no_value. cbn [w_heap]. unfold own_props.
    rewrite list_lookup_middle by reflexivity. reflexivity.
  - cbn [w_heap]. unfold own_props.
    rewrite list_lookup_middle by reflexivity. reflexivity.
Qed.

Lemma toAssertError_failure e w :
  instanceof_AssertError (w_heap w) e = true ->
  toAssertError e w = (Ok e, w).
Proof.
  intros He. unfold toAssertError, bind, get_heap. rewrite He. reflexivity.
Qed.

Lemma toAssertError_error e w :
  instanceof_AssertError (w_heap w) e = false ->
  instanceof_Error (w_heap w) e = true ->
  toAssertError e w
  = (Ok (VRef (S (length (w_heap w)))), World (wrapped_in stackTrace (w_heap w) e) (w_log w)).
Proof.
  intros Ha He. unfold toAssertError. unfold bind at 1, get_heap.
  rewrite Ha, He. unfold bind at 1, ret. unfold bind at 1, get_heap.
  destruct e as [| | | | | |l| | | | | | |]; try discriminate.
  destruct w as [h log]. cbn [w_heap w_log] in *.
  apply wrap_error. unfold instanceof_Error in He.
  destruct (h !! l) eqn:Hl; [|discriminate]. by apply lookup_lt_Some in Hl.
Qed.

Lemma not_Error_not_AssertError h e :
  instanceof_Error h e = false -> instanceof_AssertError h e = false.
Proof.
  unfold instanceof_Error, instanceof_AssertError.
  destruct e; try reflexivity. destruct (h !! l) as [[]|]; try reflexivity.
  discriminate.
Qed.

Lemma toAssertError_other e w text w1 :
  instanceof_Error (w_heap w) e = false ->
  ToString objectToString e w = (Ok text, w1) ->
  toAssertError e w
  = (Ok (VRef (S (S (length (w_heap w1))))),
     World (wrapped_in stackTrace (w_heap w1 ++ [OError CError text None []])
                       (VRef (length (w_heap w1))))
           (w_log w1)).
Proof.
  intros He Htext. unfold toAssertError. unfold bind at 1, get_heap.
  rewrite (not_Error_not_AssertError _ _ He), He.
  assert (Herr : (let* text := ToString objectToString e in
                  let* l := alloc (OError CError text None []) in
                  ret (VRef l)) w
                 = (Ok (VRef (length (w_heap w1))),
                    World (w_heap w1 ++ [OError CError text None []]) (w_log w1)))
    by (by erewrite bind_ok by exact Htext).
  erewrite bind_ok by exact Herr.
  unfold bind at 1, get_heap. cbn [w_heap w_log].
  rewrite wrap_error; [|rewrite length_app; cbn [length]; lia].
  rewrite length_app. cbn [length]. rewrite Nat.add_1_r. reflexivity.
Qed.

Lemma toAssertError_other_throws e w x w1 :
  instanceof_Error (w_heap w) e = false ->
  ToString objectToString e w = (Throw x, w1) ->
  toAssertError e w = (Throw x, w1).
Proof.
  intros He Htext. unfold toAssertError. unfold bind at 1, get_heap.
  rewrite (not_Error_not_AssertError _ _ He), He.
  assert (Herr : (let* text := ToString objectToString e in
                  let* l := alloc (OError CError text None []) in
                  ret (VRef l)) w
                 = (Throw x, w1))
    by (by erewrite bind_throw by exact Htext).
  by erewrite bind_throw by exact Herr.
Qed.

Lemma wrapped_in_failure h err :
  wrapped_in stackTrace h err !! S (length h)
  = Some (OError CAssertError
            (full_message (getCallerName stackTrace 3) (error_message h err) None)
            (Some err)
            (failure_props ++ [(u "info", PData (VRef (S (S (length h)))))])).
Proof.
  unfold wrapped_in. rewrite lookup_app_r by lia.
  replace (S (length h) - length h) with 1 by lia. reflexivity.
Qed.

Lemma wrapped_in_old h err l :
  l < length h -> wrapped_in stackTrace h err !! l = h !! l.
Proof. intros Hl. unfold wrapped_in. by rewrite lookup_app_l. Qed.


Lemma failure_at_error n message summary cause copied (h : heap) :
  (h ++ failure_at stackTrace n message summary cause copied) !! length h
  = Some (OError CAssertError
            (full_message (getCallerName stackTrace 3) message summary) cause
            (failure_props ++ [(u "info", PData (VRef (S n)))])).
Proof. unfold failure_at. by rewrite list_lookup_middle. Qed.

Lemma failure_at_info n message summary cause copied (h : heap) :
  (h ++ failure_at stackTrace n message summary cause copied) !! S (length h)
  = Some (OObject (set_prop (u "caller")
                     (PData (caller_value (getCallerName stackTrace 3))) copied)).
Proof.
  rewrite lookup_app_r by lia.
  replace (S (length h) - length h) with 1 by lia. reflexivity.
Qed.

(** A failing [assert] throws the Failure whenever the constructor can
    build it. *)
Lemma assert_throws_failure condition message info w summary copied :
  truthy condition = false ->
  allocated (w_heap w) info ->
  type_summary info w = (Ok summary, w) ->
  spread_props (own_props (w_heap w) info) = Ok copied ->
  assert condition message info w
  = (Throw (VRef (length (w_heap w))),
     World (w_heap w ++ failure_at stackTrace (length (w_heap w))
                          (default (u "Assertion failed") message) summary None copied)
           (w_log w)).
Proof.
  intros Hc Halloc Hsummary Hcopy. unfold assert. rewrite Hc.
  erewrite bind_ok by (eapply new_AssertError_ok; eauto). reflexivity.
Qed.

(** What the constructor does when [info.value] has been summarized in
    the world [w1]. *)
Lemma new_AssertError_after_summary message info cause w summary w1 :
  type_summary info w = (Ok summary, w1) ->
  allocated (w_heap w1) info ->
  new_AssertError message info cause w
  = match spread_props (own_props (w_heap w1) info) with
    | Ok copied =>
        (Ok (VRef (length (w_heap w1))),
         World (w_heap w1 ++ failure_at stackTrace (length (w_heap w1)) message summary
                               (if truthy cause then Some cause else None) copied)
               (w_log w1))
    | Throw x =>
        (Throw x,
         World (w_heap w1
                ++ [OError CAssertError
                      (full_message (getCallerName stackTrace 3) message summary)
                      (if truthy cause then Some cause else None) failure_props])
               (w_log w1))
    end.
Proof.
  intros Hsummary Halloc.
  unfold new_AssertError. erewrite bind_ok by exact Hsummary.
  munfold. cbn [w_heap w_log]. rewrite own_props_alloc by exact Halloc.
  destruct (spread_props (own_props (w_heap w1) info)) as [copied|x]; [|reflexivity].
  cbn [w_heap w_log]. rewrite store_first.
  rewrite length_app. cbn [length]. rewrite Nat.add_1_r. reflexivity.
Qed.

Lemma new_AssertError_summary_throws message info cause w x w1 :
  type_summary info w = (Throw x, w1) ->
  new_AssertError message info cause w = (Throw x, w1).
Proof.
  intros Hsummary. unfold new_AssertError. by erewrite bind_throw by exact Hsummary.
Qed.


(** C8 (amended): [assert(false, "custom", {value: [1,2,3,4]})] throws a
    Failure whose message is ["custom (got: array(len=4, sample=[1, 2,
    3, …]))"]: the ellipsis is the fourth item of the sample, inside the
    brackets. *)
Theorem assert_custom_message w numbers info :
  w_heap w !! numbers
  = Some (OArray [VNum (NInt 1); VNum (NInt 2); VNum (NInt 3); VNum (NInt 4)]) ->
  w_heap w !! info = Some (OObject [(u "value", PData (VRef numbers))]) ->
  exists failure ps w',
    assert (VBool false) (Some (u "custom")) (VRef info) w = (Throw (VRef failure), w')
    /\ w_heap w' !! failure
       = Some (OError CAssertError
                 (u "custom (got: array(len=4, sample=[1, 2, 3, " ++ ELLIPSIS ++ u "]))")
                 None ps).
Proof.
  intros Hnumbers Hinfo.
  assert (Hsummary : type_summary (VRef info) w
    = (Ok (Some (u "array(len=4, sample=[1, 2, 3, " ++ ELLIPSIS ++ u "])")), w)).
  { unfold type_summary. cbn [is_nullish].
    assert (Hget : Get (VRef info) (u "value") w = (Ok (VRef numbers), w)).
    { munfold. unfold own_props. rewrite Hinfo. reflexivity. }
    erewrite bind_ok by exact Hget. cbn [is_undefined].
    assert (Hsum : summarizeValue (VRef numbers) w
      = (Ok (array_summary
               [VNum (NInt 1); VNum (NInt 2); VNum (NInt 3); VNum (NInt 4)]
               [Some (u "1"); Some (u "2"); Some (u "3")]), w)).
    { apply summarizeValue_array; [|reflexivity].
      unfold is_array. rewrite Hnumbers. reflexivity. }
    erewrite bind_ok by exact Hsum. reflexivity. }
  erewrite assert_throws_failure; [|reflexivity| |exact Hsummary|].
  - eexists _, _, _. split; [reflexivity|]. cbn [w_heap].
    etrans; [apply failure_at_error|]. reflexivity.
  - cbn [allocated]. by apply lookup_lt_Some in Hinfo.
  - unfold own_props. rewrite Hinfo. reflexivity.
Qed.

(** What normalization returns is a Failure. *)
Lemma toAssertError_returns_failure e w ae w' :
  toAssertError e w = (Ok ae, w') ->
  instanceof_AssertError (w_heap w') ae = true.
Proof.
  destruct (instanceof_AssertError (w_heap w) e) eqn:Ha.
  - rewrite (toAssertError_failure _ _ Ha). by intros [= <- <-].
  - destruct (instanceof_Error (w_heap w) e) eqn:He.
    + rewrite (toAssertError_error _ _ Ha He). intros [= <- <-].
      cbn [w_heap instanceof_AssertError]. by rewrite wrapped_in_failure.
    + destruct (ToString objectToString e w) as [[text|x] w1] eqn:Htext.
      * rewrite (toAssertError_other _ _ _ _ He Htext). intros [= <- <-].
        cbn [w_heap instanceof_AssertError].
        pose proof (wrapped_in_failure
          (w_heap w1 ++ [OError CError text None []])
          (VRef (length (w_heap w1)))) as Hf.
        rewrite length_app in Hf. cbn [length] in Hf. rewrite Nat.add_1_r in Hf.
        by rewrite Hf.
      * by rewrite (toAssertError_other_throws _ _ _ _ He Htext).
Qed.

Lemma ToString_log e w r w' :
  ToString objectToString e w = (r, w') ->
  w_log w' = w_log w ++ (if is_primitive e then [] else [EToString e]).
Proof.
  unfold ToString, is_primitive. destruct (primitive_text e) as [text|].
  - intros [= _ <-]. by rewrite app_nil_r.
  - unfold convert_user. destruct (objectToString e (w_heap w)) as [r0 h'].
    by intros [= _ <-].
Qed.

(** The only call that normalization makes is the conversion
    [String(e)]. *)
Lemma toAssertError_log e w r w' :
  toAssertError e w = (r, w') ->
  w_log w' = w_log w ++ conversions (w_heap w) e.
Proof.
  unfold conversions.
  destruct (instanceof_Error (w_heap w) e) eqn:He.
  - cbn [orb]. rewrite app_nil_r.
    destruct (instanceof_AssertError (w_heap w) e) eqn:Ha.
    + rewrite (toAssertError_failure _ _ Ha). by intros [= _ <-].
    + rewrite (toAssertError_error _ _ Ha He). by intros [= _ <-].
  - cbn [orb]. destruct (ToString objectToString e w) as [[text|x] w1] eqn:Htext.
    + rewrite (toAssertError_other _ _ _ _ He Htext). intros [= _ <-].
      cbn [w_log]. by apply ToString_log in Htext.
    + rewrite (toAssertError_other_throws _ _ _ _ He Htext). intros [= _ <-].
      by apply ToString_log in Htext.
Qed.

(** Normalization throws only what the conversion [String(e)] of a
    value that is neither an error object nor a primitive throws. *)
Lemma toAssertError_throws_inv e w x w' :
  toAssertError e w = (Throw x, w') ->
  instanceof_Error (w_heap w) e = false
  /\ is_primitive e = false
  /\ ToString objectToString e w = (Throw x, w').
Proof.
  destruct (instanceof_AssertError (w_heap w) e) eqn:Ha.
  - by rewrite (toAssertError_failure _ _ Ha).
  - destruct (instanceof_Error (w_heap w) e) eqn:He.
    + by rewrite (toAssertError_error _ _ Ha He).
    + destruct (ToString objectToString e w) as [[text|y] w1] eqn:Htext.
      * by rewrite (toAssertError_other _ _ _ _ He Htext).
      * rewrite (toAssertError_other_throws _ _ _ _ He Htext). intros [= <- <-].
        split; [reflexivity|]. split; [|reflexivity].
        unfold is_primitive. destruct (primitive_text e) as [text|] eqn:Hp; [|done].
        by rewrite (ToString_primitive _ _ _ _ Hp) in Htext.
Qed.

(** Error objects and primitives are always normalized, and nothing is
    called for it. *)
Lemma toAssertError_total e w :
  instanceof_Error (w_heap w) e || is_primitive e = true ->
  exists ae w',
    toAssertError e w = (Ok ae, w')
    /\ instanceof_AssertError (w_heap w') ae = true
    /\ w_log w' = w_log w.
Proof.
  intros Hsimple.
  destruct (toAssertError e w) as [[ae|x] w'] eqn:Hrun.
  - exists ae, w'. split; [reflexivity|].
    split; [by eapply toAssertError_returns_failure|].
    apply toAssertError_log in Hrun. unfold conversions in Hrun.
    rewrite Hsimple in Hrun. by rewrite app_nil_r in Hrun.
  - apply toAssertError_throws_inv in Hrun as (He & Hp & _).
    rewrite He, Hp in Hsimple. discriminate.
Qed.

End Failures.





(** C8, as stated, fails: the message does not contain the text of the
    claim, with or without its final ellipsis, because in the message the
    sample does not close after [3]. *)
Lemma assert_custom_message_counterexample :
  exists message ps w',
    Demo.assert (VBool false) (Some (u "custom")) Demo.fourNumbersInfo Demo.start
    = (Throw (VRef 21), w')
    /\ w_heap w' !! 21 = Some (OError CAssertError message None ps)
    /\ includes message (u "custom (got: array(len=4, sample=[1, 2, 3]" ++ ELLIPSIS) = false
    /\ includes message (u "custom (got: array(len=4, sample=[1, 2, 3]") = false.
Proof.
  exists (u "custom (got: array(len=4, sample=[1, 2, 3, " ++ ELLIPSIS ++ u "]))"),
         (failure_props ++ [(u "info", PData (VRef 22))]),
         (snd (Demo.assert (VBool false) (Some (u "custom")) Demo.fourNumbersInfo Demo.start)).
  repeat split; vm_compute; reflexivity.
Qed.

Lemma assert_custom_message_witness :
  exists failure ps w',
    Demo.assert (VBool false) (Some (u "custom")) Demo.fourNumbersInfo Demo.start
    = (Throw (VRef failure), w')
    /\ w_heap w' !! failure
       = Some (OError CAssertError
                 (u "custom (got: array(len=4, sample=[1, 2, 3, " ++ ELLIPSIS ++ u "]))")
                 None ps).
Proof.
  exact (assert_custom_message Demo.stackTrace Demo.objectToString Demo.start 16 17
           eq_refl eq_refl).
Defined.

(** ** The route wrappers *)

Section Routing.

Variable call : fid -> list value -> heap -> res value * heap.
Variable stackTrace : option ustring.
Variable objectToString : value -> heap -> res ustring * heap.

Local Abbreviation apply := (apply call stackTrace objectToString).
Local Abbreviation handleError := (handleError call stackTrace objectToString).
Local Abbreviation toAssertError := (toAssertError stackTrace objectToString).
Local Abbreviation new_AssertError := (new_AssertError stackTrace objectToString).
Local Abbreviation assertRoute := (assertRoute call stackTrace objectToString).
Local Abbreviation assertRouteAsync := (assertRouteAsync call stackTrace objectToString).
Local Abbreviation resume := (resume call stackTrace objectToString).
Local Abbreviation routed := (routed call stackTrace objectToString).

(** A call of a user function adds exactly one entry to the log. *)
Lemma apply_user_log l id ps args w r w' :
  w_heap w !! l = Some (OFunction id ps) ->
  apply (VRef l) args w = (r, w') ->
  w_log w' = w_log w ++ [ECall l args].
Proof.
  intros Hl. simpl. unfold bind, get_heap, call_user. rewrite Hl.
  destruct (call id args (w_heap w)) as [r0 h']. intros [= _ <-]. reflexivity.
Qed.

(** The callback step of [handleError] is the relation [routed]. *)
Lemma notify_routed onError fallback e w :
  exists r w',
    (let* _ := optional_call apply onError [e] in ret fallback) w = (r, w')
    /\ routed onError fallback e w r w'.
Proof.
  unfold bind, optional_call, ret.
  destruct (is_nullish onError) eqn:Hn.
  - eexists _, _. split; [reflexivity|]. by constructor.
  - destruct (apply onError [e] w) as [[v|x] w'] eqn:Happ.
    + eexists _, _. split; [reflexivity|]. by econstructor.
    + eexists _, _. split; [reflexivity|]. by econstructor.
Qed.

Lemma handleError_failure e onError c fallback w :
  instanceof_AssertError (w_heap w) e = true ->
  handleError e onError c fallback w
  = (let* _ := optional_call apply onError [e] in ret fallback) w.
Proof.
  intros He. unfold handleError, handleError_with, bind at 1, get_heap.
  rewrite He. reflexivity.
Qed.

Lemma handleError_rethrow e onError c fallback w :
  instanceof_AssertError (w_heap w) e = false ->
  truthy c = false ->
  handleError e onError c fallback w = (Throw e, w).
Proof.
  intros He Hc. unfold handleError, handleError_with, bind, get_heap.
  rewrite He, Hc. reflexivity.
Qed.

Lemma handleError_recover e onError c fallback w :
  instanceof_AssertError (w_heap w) e = false ->
  truthy c = true ->
  handleError e onError c fallback w
  = (let* ae := toAssertError e in
     let* _ := optional_call apply onError [ae] in ret fallback) w.
Proof.
  intros He Hc. unfold handleError, handleError_with, bind at 1, get_heap.
  rewrite He, Hc. reflexivity.
Qed.

Lemma routed_user_log onError fallback e w r w' l id ps :
  routed onError fallback e w r w' ->
  onError = VRef l ->
  w_heap w !! l = Some (OFunction id ps) ->
  w_log w' = w_log w ++ [ECall l [e]].
Proof.
  intros Hr -> Hl. inversion Hr; subst; try discriminate;
    eapply apply_user_log; eauto.
Qed.

Lemma wrapSync_options fallback fn opts onError c w :
  read_options opts w = (Ok (onError, c), w) ->
  wrapSync fallback fn opts w = (Ok (VWrapSync fallback fn onError c), w).
Proof. intros H. unfold wrapSync, bind. rewrite H. reflexivity. Qed.

Lemma assertRoute_general_form fallback fn opts w :
  is_function (w_heap w) fallback = false ->
  assertRoute [fallback; fn; opts] w = wrapSync fallback fn opts w.
Proof.
  intros Hf. unfold assertRoute, bind at 1, get_heap, dispatch, nth_arg, rest_args.
  simpl. rewrite Hf. unfold bind.
  destruct (wrapSync fallback fn opts w) as [[wrapped|e] w']; reflexivity.
Qed.

Lemma handleError_routes e onError c fallback w :
  instanceof_AssertError (w_heap w) e = true ->
  exists r w',
    handleError e onError c fallback w = (r, w')
    /\ routed onError fallback e w r w'.
Proof.
  intros He. rewrite (handleError_failure _ _ _ _ _ He). apply notify_routed.
Qed.

Lemma handleError_normalizes e onError c fallback w :
  instanceof_AssertError (w_heap w) e = false ->
  truthy c = true ->
  match toAssertError e w with
  | (Ok ae, w1) =>
      instanceof_AssertError (w_heap w1) ae = true
      /\ exists r w2,
           handleError e onError c fallback w = (r, w2)
           /\ routed onError fallback ae w1 r w2
  | (Throw x, w1) => handleError e onError c fallback w = (Throw x, w1)
  end.
Proof.
  intros He Hc. rewrite (handleError_recover _ _ _ _ _ He Hc).
  destruct (toAssertError e w) as [[ae|x] w1] eqn:Hae.
  - split; [by eapply toAssertError_returns_failure|].
    destruct (notify_routed onError fallback ae w1) as (r & w2 & Hrun & Hrouted).
    exists r, w2. split; [|exact Hrouted].
    erewrite bind_ok by exact Hae. exact Hrun.
  - by erewrite bind_throw by exact Hae.
Qed.

Lemma apply_wrapSync fallback fn onError c args :
  apply (VWrapSync fallback fn onError c) args
  = try_catch (apply fn args) (fun e => handleError e onError c fallback).
Proof. reflexivity. Qed.

Lemma apply_wrapSync_ok fallback fn onError c args w v w1 :
  apply fn args w = (Ok v, w1) ->
  apply (VWrapSync fallback fn onError c) args w = (Ok v, w1).
Proof.
  intros Hfn. rewrite apply_wrapSync. unfold try_catch. by rewrite Hfn.
Qed.

Lemma apply_wrapSync_throw fallback fn onError c args w e w1 :
  apply fn args w = (Throw e, w1) ->
  apply (VWrapSync fallback fn onError c) args w
  = handleError e onError c fallback w1.
Proof.
  intros Hfn. rewrite apply_wrapSync. unfold try_catch. by rewrite Hfn.
Qed.

(** C1 (amended): for every fallback that is not itself callable,
    [assertRoute(fallback, fn, options)] returns the wrapper of [fn].  When
    [fn] returns, the wrapper returns the same value and leaves the same
    world.  When [fn] throws a Failure, [options.onError], when present,
    is called once with that Failure, and the wrapper returns [fallback]
    if the callback returns; if the callback throws, the wrapper throws
    what the callback threw. *)
Theorem assertRoute_sync_contract fallback fn opts onError c w :
  is_function (w_heap w) fallback = false ->
  read_options opts w = (Ok (onError, c), w) ->
  exists wrapped,
    assertRoute [fallback; fn; opts] w = (Ok wrapped, w)
    /\ forall args w0,
         (forall v w1,
            apply fn args w0 = (Ok v, w1) ->
            apply wrapped args w0 = (Ok v, w1))
         /\
         (forall e w1,
            apply fn args w0 = (Throw e, w1) ->
            instanceof_AssertError (w_heap w1) e = true ->
            exists r w2,
              apply wrapped args w0 = (r, w2)
              /\ routed onError fallback e w1 r w2
              /\ (forall l id ps,
                    onError = VRef l ->
                    w_heap w1 !! l = Some (OFunction id ps) ->
                    w_log w2 = w_log w1 ++ [ECall l [e]])).
Proof.
  intros Hfallback Hopts. exists (VWrapSync fallback fn onError c).
  split.
  - rewrite (assertRoute_general_form _ _ _ _ Hfallback).
    by apply wrapSync_options.
  - intros args w0. split.
    + intros v w1. apply apply_wrapSync_ok.
    + intros e w1 Hfn He.
      destruct (handleError_routes e onError c fallback w1 He)
        as (r & w2 & Hrun & Hrouted).
      exists r, w2. split; [|split].
      * by rewrite (apply_wrapSync_throw _ _ _ _ _ _ _ _ Hfn).
      * exact Hrouted.
      * intros l id ps Hl Hfun. eapply routed_user_log; eauto.
Qed.

Lemma read_options_omitted w :
  read_options VUndefined w = (Ok (VUndefined, VBool false), w).
Proof. reflexivity. Qed.

Lemma read_options_absent opts onError w :
  is_nullish opts = false ->
  Get opts (u "onError") w = (Ok onError, w) ->
  Get opts (u "catchNonAssertErrors") w = (Ok VUndefined, w) ->
  read_options opts w = (Ok (onError, VBool false), w).
Proof.
  intros Hopts Hon Hcatch. unfold read_options.
  destruct opts; try discriminate;
    erewrite bind_ok by exact Hon; erewrite bind_ok by exact Hcatch;
    reflexivity.
Qed.

Lemma read_options_present opts onError c w :
  is_nullish opts = false ->
  Get opts (u "onError") w = (Ok onError, w) ->
  Get opts (u "catchNonAssertErrors") w = (Ok c, w) ->
  is_undefined c = false ->
  read_options opts w = (Ok (onError, c), w).
Proof.
  intros Hopts Hon Hcatch Hc. unfold read_options.
  destruct opts; try discriminate;
    erewrite bind_ok by exact Hon; erewrite bind_ok by exact Hcatch;
    by rewrite Hc.
Qed.


Lemma dispatch_general h a b c rest :
  is_function h a = false -> dispatch h (a :: b :: c :: rest) = (a, b, c).
Proof.
  intros Ha. unfold dispatch. change (nth_arg 0 (a :: b :: c :: rest)) with a.
  by rewrite Ha.
Qed.

Lemma dispatch_plain h a b rest :
  is_function h a = true -> dispatch h (a :: b :: rest) = (VUndefined, a, b).
Proof.
  intros Ha. unfold dispatch. change (nth_arg 0 (a :: b :: rest)) with a.
  by rewrite Ha.
Qed.

(** Both call forms with arguments after the options. *)
Lemma assertRoute_general_form_args fallback fn opts args w :
  is_function (w_heap w) fallback = false ->
  assertRoute (fallback :: fn :: opts :: args) w
  = (let* wrapped := wrapSync fallback fn opts in
     match args with
     | [] => ret wrapped
     | _ :: _ => apply wrapped args
     end) w.
Proof.
  intros Hf. unfold assertRoute, bind at 1, get_heap.
  rewrite dispatch_general by exact Hf.
  change (rest_args (fallback :: fn :: opts :: args)) with args.
  destruct args; reflexivity.
Qed.

(** In the plain-function form the third argument is bound to the
    parameter [options], which that form does not read: the first
    argument after the options never reaches [fn]. *)
Lemma assertRoute_plain_form_args fn opts a rest w :
  is_function (w_heap w) fn = true ->
  assertRoute (fn :: opts :: a :: rest) w
  = (let* wrapped := wrapSync VUndefined fn opts in
     match rest with
     | [] => ret wrapped
     | _ :: _ => apply wrapped rest
     end) w.
Proof.
  intros Hf. unfold assertRoute, bind at 1, get_heap.
  rewrite dispatch_plain by exact Hf.
  change (rest_args (fn :: opts :: a :: rest)) with rest.
  destruct rest; reflexivity.
Qed.

(** C10: when the first argument [f] of [assertRoute(f, fn)] is callable,
    [f] is what gets wrapped, with the fallback [undefined], and [fn] is
    read as the options object; the result is never the wrapper of [fn]
    with fallback [f]. *)
Theorem assertRoute_callable_first_argument f fn w :
  is_function (w_heap w) f = true ->
  assertRoute [f; fn] w = wrapSync VUndefined f fn w
  /\
  (forall wrapped w',
     assertRoute [f; fn] w = (Ok wrapped, w') ->
     exists onError c,
       read_options fn w = (Ok (onError, c), w')
       /\ wrapped = VWrapSync VUndefined f onError c
       /\ forall onError' c', wrapped <> VWrapSync f fn onError' c')
  /\
  (is_function (w_heap w) fn = true ->
   assoc (u "onError") (own_props (w_heap w) fn) = None ->
   assoc (u "catchNonAssertErrors") (own_props (w_heap w) fn) = None ->
   assertRoute [f; fn] w = (Ok (VWrapSync VUndefined f VUndefined (VBool false)), w)).
Proof.
  intros Hf.
  assert (Heq : assertRoute [f; fn] w = wrapSync VUndefined f fn w).
  { unfold assertRoute, bind at 1, get_heap.
    rewrite dispatch_plain by exact Hf. unfold bind, rest_args.
    destruct (wrapSync VUndefined f fn w) as [[wrapped|e] w']; reflexivity. }
  split; [exact Heq|]. split.
  - intros wrapped w'. rewrite Heq. unfold wrapSync, bind.
    destruct (read_options fn w) as [[[onError c]|e] w1]; [|discriminate].
    unfold ret. intros [= <- <-]. exists onError, c.
    split; [reflexivity|]. split; [reflexivity|].
    intros onError' c' [= Hundef _ _ _]. subst f. discriminate.
  - intros Hfn Hon Hcatch. rewrite Heq. apply wrapSync_options.
    apply read_options_absent.
    + destruct fn; try reflexivity; discriminate.
    + munfold. by rewrite Hon.
    + munfold. by rewrite Hcatch.
Qed.

End Routing.

(** C1, as stated, fails in two ways.  With a callback that throws, the
    wrapper of a function that fails an assertion throws what the callback
    threw and does not return the fallback [0].  With a fallback that is
    callable, [assertRoute(fallback, fn, options)] wraps the fallback: the
    wrapper returns [1], the value of the fallback function, where [fn]
    returns [42]. *)
Lemma assertRoute_sync_counterexample :
  (exists wrapped w1,
     Demo.assertRoute [VNum (NInt 0); Demo.failsAssert; Demo.notifyAndThrow] Demo.start
     = (Ok wrapped, Demo.start)
     /\ Demo.apply Demo.failsAssert [] Demo.start = (Throw (VRef 21), w1)
     /\ instanceof_AssertError (w_heap w1) (VRef 21) = true
     /\ fst (Demo.apply wrapped [] Demo.start) = Throw (VStr (u "callback")))
  /\
  (exists wrapped,
     Demo.assertRoute [Demo.returns1; Demo.returns42; VUndefined] Demo.start
     = (Ok wrapped, Demo.start)
     /\ fst (Demo.apply Demo.returns42 [] Demo.start) = Ok (VNum (NInt 42))
     /\ fst (Demo.apply wrapped [] Demo.start) = Ok (VNum (NInt 1))).
Proof.
  split.
  - exists (VWrapSync (VNum (NInt 0)) Demo.failsAssert Demo.throwingCallback (VBool false)),
           (snd (Demo.apply Demo.failsAssert [] Demo.start)).
    repeat split; vm_compute; reflexivity.
  - exists (VWrapSync VUndefined Demo.returns1 VUndefined (VBool false)).
    repeat split; vm_compute; reflexivity.
Qed.

Lemma assertRoute_sync_contract_witness :
  exists wrapped,
    Demo.assertRoute [VNum (NInt 0); Demo.failsAssert; Demo.notifyQuietly] Demo.start
    = (Ok wrapped, Demo.start)
    /\ exists r w2,
         Demo.apply wrapped [] Demo.start = (r, w2)
         /\ routed Demo.call Demo.stackTrace Demo.objectToString
              Demo.quietCallback (VNum (NInt 0)) (VRef 21)
              (snd (Demo.apply Demo.failsAssert [] Demo.start)) r w2
         /\ w_log w2 = [ECall 1 []; ECall 5 [VRef 21]].
Proof.
  destruct (assertRoute_sync_contract Demo.call Demo.stackTrace Demo.objectToString
              (VNum (NInt 0)) Demo.failsAssert Demo.notifyQuietly
              Demo.quietCallback (VBool false) Demo.start eq_refl eq_refl)
    as (wrapped & Hwrapped & Hcontract).
  exists wrapped. split; [exact Hwrapped|].
  destruct (Hcontract [] Demo.start) as [_ Hfailure].
  destruct (Hfailure (VRef 21) (snd (Demo.apply Demo.failsAssert [] Demo.start))
              eq_refl eq_refl) as (r & w2 & Hrun & Hrouted & Hlog).
  exists r, w2. split; [exact Hrun|]. split; [exact Hrouted|].
  exact (Hlog 5 5 [] eq_refl eq_refl).
Defined.



(** C4 at the failing input.  In the plain-function form the argument [7]
    given after the options is not passed on: [assertRoute(fn, undefined,
    7)] returns the wrapper and calls nothing, and [assertRoute(fn,
    undefined, 7, 8)] calls [fn(8)].  The general form does pass it on:
    [assertRoute(0, fn, undefined, 7)] calls [fn(7)] and returns its
    result.  Here [fn] is [(x) => x]. *)
Theorem assertRoute_plain_form_trailing_arguments :
  Demo.assertRoute [Demo.identity; VUndefined; VNum (NInt 7)] Demo.start
  = (Ok (VWrapSync VUndefined Demo.identity VUndefined (VBool false)), Demo.start)
  /\
  Demo.assertRoute [Demo.identity; VUndefined; VNum (NInt 7); VNum (NInt 8)] Demo.start
  = (Ok (VNum (NInt 8)), World Demo.objects [ECall 4 [VNum (NInt 8)]])
  /\
  Demo.assertRoute [VNum (NInt 0); Demo.identity; VUndefined; VNum (NInt 7)] Demo.start
  = (Ok (VNum (NInt 7)), World Demo.objects [ECall 4 [VNum (NInt 7)]]).
Proof. repeat split; vm_compute; reflexivity. Qed.

Lemma assertRoute_callable_first_argument_witness :
  Demo.assertRoute [Demo.returns1; Demo.returns42] Demo.start
  = (Ok (VWrapSync VUndefined Demo.returns1 VUndefined (VBool false)), Demo.start).
Proof.
  exact (proj2 (proj2 (assertRoute_callable_first_argument
                         Demo.call Demo.stackTrace Demo.objectToString
                         Demo.returns1 Demo.returns42 Demo.start eq_refl))
           eq_refl eq_refl eq_refl).
Defined.

(** ** The validator *)

Section Validator.

Variable call : fid -> list value -> heap -> res value * heap.
Variable stackTrace : option ustring.
Variable objectToString : value -> heap -> res ustring * heap.

Local Abbreviation apply := (apply call stackTrace objectToString).
Local Abbreviation all_pass := (all_pass call stackTrace objectToString).

Lemma apply_isValid assertions args :
  apply (isValid assertions) args
  = try_catch
      (let* _ := run_assertions apply assertions args in ret (VBool true))
      (fun e =>
         let* h := get_heap in
         if instanceof_AssertError h e then ret (VBool false) else throw e).
Proof. reflexivity. Qed.

Lemma run_assertions_pass assertions args w w' :
  all_pass args assertions w w' ->
  run_assertions apply assertions args w = (Ok tt, w').
Proof.
  induction 1 as [w|a rest v w w1 w2 Ha _ IH]; [reflexivity|].
  cbn [run_assertions]. erewrite bind_ok by exact Ha. exact IH.
Qed.

Lemma run_assertions_first_throw pre a post args e w w1 w2 :
  all_pass args pre w w1 ->
  apply a args w1 = (Throw e, w2) ->
  run_assertions apply (pre ++ a :: post) args w = (Throw e, w2).
Proof.
  intros Hpre Ha. induction Hpre as [w|b rest v w w0 w1 Hb _ IH].
  - cbn [app run_assertions]. by erewrite bind_throw by exact Ha.
  - cbn [app run_assertions]. erewrite bind_ok by exact Hb. by apply IH.
Qed.

(** Either all assertions pass, or there is a first one that throws. *)
Lemma run_assertions_cases assertions args w :
  (exists w', all_pass args assertions w w')
  \/
  (exists pre a post e w1 w2,
     assertions = pre ++ a :: post
     /\ all_pass args pre w w1
     /\ apply a args w1 = (Throw e, w2)).
Proof.
  revert w. induction assertions as [|a rest IH]; intros w.
  - left. exists w. constructor.
  - destruct (apply a args w) as [[v|e] w1] eqn:Ha.
    + destruct (IH w1) as [[w' Hall]|(pre & b & post & e & w2 & w3 & -> & Hpre & Hb)].
      * left. exists w'. econstructor; eauto.
      * right. exists (a :: pre), b, post, e, w2, w3.
        split; [reflexivity|]. split; [econstructor; eauto|exact Hb].
    + right. exists [], a, rest, e, w, w1.
      split; [reflexivity|]. split; [constructor|exact Ha].
Qed.

(** C6: [isValid(...assertions)(...args)] runs the assertions on [args] in
    the given order.  If all of them return, it returns [true].  At the
    first one that throws it stops, in the world that assertion left: it
    returns [false] if what was thrown is a Failure, and otherwise throws
    the same value.  One of the two cases always applies. *)
Theorem isValid_contract assertions args w :
  (forall w',
     all_pass args assertions w w' ->
     apply (isValid assertions) args w = (Ok (VBool true), w'))
  /\
  (forall pre a post e w1 w2,
     assertions = pre ++ a :: post ->
     all_pass args pre w w1 ->
     apply a args w1 = (Throw e, w2) ->
     apply (isValid assertions) args w
     = (if instanceof_AssertError (w_heap w2) e then Ok (VBool false) else Throw e,
        w2))
  /\
  ((exists w', all_pass args assertions w w')
   \/
   (exists pre a post e w1 w2,
      assertions = pre ++ a :: post
      /\ all_pass args pre w w1
      /\ apply a args w1 = (Throw e, w2))).
Proof.
  split; [|split].
  - intros w' Hall. rewrite apply_isValid. unfold try_catch.
    erewrite bind_ok by (apply run_assertions_pass; exact Hall). reflexivity.
  - intros pre a post e w1 w2 -> Hpre Ha. rewrite apply_isValid. unfold try_catch.
    erewrite bind_throw by (eapply run_assertions_first_throw; eauto).
    unfold bind, get_heap.
    destruct (instanceof_AssertError (w_heap w2) e); reflexivity.
  - apply run_assertions_cases.
Qed.

End Validator.

Lemma isValid_contract_witness :
  Demo.apply (isValid [Demo.quietCallback; Demo.returns42]) [VNum (NInt 1)] Demo.start
  = (Ok (VBool true),
     World Demo.objects [ECall 5 [VNum (NInt 1)]; ECall 0 [VNum (NInt 1)]])
  /\
  (exists w2,
     Demo.apply (isValid [Demo.quietCallback; Demo.failsAssert; Demo.throwsError])
       [VNum (NInt 1)] Demo.start
     = (Ok (VBool false), w2)
     /\ w_log w2 = [ECall 5 [VNum (NInt 1)]; ECall 1 [VNum (NInt 1)]])
  /\
  (exists w2,
     Demo.apply (isValid [Demo.throwsError; Demo.failsAssert]) [VNum (NInt 1)] Demo.start
     = (Throw (VRef 21), w2)
     /\ w_log w2 = [ECall 2 [VNum (NInt 1)]]).
Proof.
  split; [|split].
  - apply (proj1 (isValid_contract Demo.call Demo.stackTrace Demo.objectToString
                    [Demo.quietCallback; Demo.returns42] [VNum (NInt 1)] Demo.start)).
    econstructor; [reflexivity|]. econstructor; [reflexivity|]. constructor.
  - eexists. split.
    + apply (proj1 (proj2 (isValid_contract Demo.call Demo.stackTrace Demo.objectToString
                             [Demo.quietCallback; Demo.failsAssert; Demo.throwsError]
                             [VNum (NInt 1)] Demo.start))
               [Demo.quietCallback] Demo.failsAssert [Demo.throwsError] (VRef 21)
               (World Demo.objects [ECall 5 [VNum (NInt 1)]])
               (snd (Demo.apply Demo.failsAssert [VNum (NInt 1)]
                       (World Demo.objects [ECall 5 [VNum (NInt 1)]])))
               eq_refl).
      * econstructor; [reflexivity|]. constructor.
      * reflexivity.
    + reflexivity.
  - eexists. split.
    + apply (proj1 (proj2 (isValid_contract Demo.call Demo.stackTrace Demo.objectToString
                             [Demo.throwsError; Demo.failsAssert]
                             [VNum (NInt 1)] Demo.start))
               [] Demo.throwsError [Demo.failsAssert] (VRef 21)
               Demo.start
               (snd (Demo.apply Demo.throwsError [VNum (NInt 1)] Demo.start))
               eq_refl).
      * constructor.
      * reflexivity.
    + reflexivity.
Defined.

(** ** The async route wrapper *)

Section Async.

Variable call : fid -> list value -> heap -> res value * heap.
Variable stackTrace : option ustring.
Variable objectToString : value -> heap -> res ustring * heap.

Local Abbreviation apply := (apply call stackTrace objectToString).
Local Abbreviation handleError := (handleError call stackTrace objectToString).
Local Abbreviation toAssertError := (toAssertError stackTrace objectToString).
Local Abbreviation assertRouteAsync := (assertRouteAsync call stackTrace objectToString).
Local Abbreviation resume := (resume call stackTrace objectToString).
Local Abbreviation routed := (routed call stackTrace objectToString).
Local Abbreviation settles_on := (settles_on call stackTrace objectToString).

Lemma wrapAsync_options fallback fn opts onError c w :
  read_options opts w = (Ok (onError, c), w) ->
  wrapAsync fallback fn opts w = (Ok (VWrapAsync fallback fn onError c), w).
Proof. intros H. unfold wrapAsync, bind. rewrite H. reflexivity. Qed.

Lemma settle_promise_of (m : M value) w r w' :
  m w = (r, w') -> settle m w = (Ok (promise_of r), w').
Proof. intros Hm. unfold settle. rewrite Hm. by destruct r. Qed.

Lemma apply_wrapAsync_returns fallback fn onError c args w awaited w1 :
  apply fn args w = (Ok awaited, w1) ->
  apply (VWrapAsync fallback fn onError c) args w
  = (Ok (VPromiseAwaiting awaited fallback onError c), w1).
Proof.
  intros Hfn. change (apply (VWrapAsync fallback fn onError c) args w)
    with (match apply fn args w with
          | (Ok awaited, w') =>
              (Ok (VPromiseAwaiting awaited fallback onError c), w')
          | (Throw e, w') => settle (handleError e onError c fallback) w'
          end).
  by rewrite Hfn.
Qed.

Lemma apply_wrapAsync_throws fallback fn onError c args w e w1 :
  apply fn args w = (Throw e, w1) ->
  apply (VWrapAsync fallback fn onError c) args w
  = settle (handleError e onError c fallback) w1.
Proof.
  intros Hfn. change (apply (VWrapAsync fallback fn onError c) args w)
    with (match apply fn args w with
          | (Ok awaited, w') =>
              (Ok (VPromiseAwaiting awaited fallback onError c), w')
          | (Throw e, w') => settle (handleError e onError c fallback) w'
          end).
  by rewrite Hfn.
Qed.

Lemma resume_rejected awaited fallback onError c e w :
  resume (VPromiseAwaiting awaited fallback onError c) (Rejected e) w
  = settle (handleError e onError c fallback) w.
Proof. reflexivity. Qed.

(** What becomes of a Failure [e] observed in world [w], before or after
    the suspension: the promise settles as [routed] says. *)
Lemma settle_failure e onError c fallback w :
  instanceof_AssertError (w_heap w) e = true ->
  exists r w',
    settle (handleError e onError c fallback) w = (Ok (promise_of r), w')
    /\ routed onError fallback e w r w'.
Proof.
  intros He.
  destruct (handleError_routes call stackTrace objectToString e onError c fallback w He)
    as (r & w' & Hrun & Hrouted).
  exists r, w'. split; [by apply settle_promise_of|exact Hrouted].
Qed.

Lemma settle_rethrow e onError c fallback w :
  instanceof_AssertError (w_heap w) e = false ->
  truthy c = false ->
  settle (handleError e onError c fallback) w = (Ok (VPromiseRejected e), w).
Proof.
  intros He Hc. apply (settle_promise_of _ _ (Throw e)).
  by apply handleError_rethrow.
Qed.

Lemma settle_recover e onError c fallback w :
  instanceof_AssertError (w_heap w) e = false ->
  truthy c = true ->
  match toAssertError e w with
  | (Ok ae, w1) =>
      instanceof_AssertError (w_heap w1) ae = true
      /\ exists r w2,
           settle (handleError e onError c fallback) w = (Ok (promise_of r), w2)
           /\ routed onError fallback ae w1 r w2
  | (Throw x, w1) =>
      settle (handleError e onError c fallback) w = (Ok (VPromiseRejected x), w1)
  end.
Proof.
  intros He Hc.
  pose proof (handleError_normalizes call stackTrace objectToString
                e onError c fallback w He Hc) as Hcases.
  destruct (toAssertError e w) as [[ae|x] w1].
  - destruct Hcases as (Hinst & r & w2 & Hrun & Hrouted).
    split; [exact Hinst|]. exists r, w2. split; [|exact Hrouted].
    by apply settle_promise_of.
  - by apply (settle_promise_of _ _ (Throw x)).
Qed.

Lemma settle_settles_on fallback onError c e w :
  settles_on fallback onError c e w (settle (handleError e onError c fallback) w).
Proof.
  split; [|split].
  - by apply settle_failure.
  - by apply settle_rethrow.
  - by apply settle_recover.
Qed.

(** C5 (amended): calling the async wrapper always returns a promise and
    never throws, also when the call is made by [assertRouteAsync] itself
    for arguments given after the options.  If [fn] returns, the promise
    waits for what [fn] returned; when that is fulfilled, the promise
    resolves to the same value.  An exception thrown by [fn] before it
    suspends and a rejection of what it returned are handled alike: for a
    Failure, [onError], when present, is called once with it and the
    promise resolves to [fallback] if the callback returns, and rejects
    with what the callback threw otherwise; any other exception rejects
    the promise unchanged unless [catchNonAssertErrors] is true, in which
    case it is normalized and, if that gives a Failure, handled as one;
    if the normalization itself throws, as it does when the conversion
    [String(e)] of the exception throws, the promise is rejected with what
    it threw. *)
Theorem wrapAsync_contract fallback fn onError c args w :
  (exists p w',
     apply (VWrapAsync fallback fn onError c) args w = (Ok p, w')
     /\ is_promise p = true)
  /\
  (forall awaited w1,
     apply fn args w = (Ok awaited, w1) ->
     apply (VWrapAsync fallback fn onError c) args w
     = (Ok (VPromiseAwaiting awaited fallback onError c), w1)
     /\ (forall v w2,
           resume (VPromiseAwaiting awaited fallback onError c) (Fulfilled v) w2
           = (Ok (VPromiseResolved v), w2))
     /\ (forall e w2,
           settles_on fallback onError c e w2
             (resume (VPromiseAwaiting awaited fallback onError c) (Rejected e) w2)))
  /\
  (forall e w1,
     apply fn args w = (Throw e, w1) ->
     settles_on fallback onError c e w1
       (apply (VWrapAsync fallback fn onError c) args w))
  /\
  (forall opts a rest w0,
     is_function (w_heap w0) fallback = false ->
     read_options opts w0 = (Ok (onError, c), w0) ->
     assertRouteAsync [fallback; fn; opts] w0
     = (Ok (VWrapAsync fallback fn onError c), w0)
     /\ assertRouteAsync (fallback :: fn :: opts :: a :: rest) w0
        = apply (VWrapAsync fallback fn onError c) (a :: rest) w0).
Proof.
  split; [|split; [|split]].
  - destruct (apply fn args w) as [[awaited|e] w1] eqn:Hfn.
    + eexists _, _. split; [by apply apply_wrapAsync_returns|reflexivity].
    + rewrite (apply_wrapAsync_throws _ _ _ _ _ _ _ _ Hfn).
      destruct (handleError e onError c fallback w1) as [r w2] eqn:Hrun.
      exists (promise_of r), w2.
      split; [by apply settle_promise_of|by destruct r].
  - intros awaited w1 Hfn. split; [by apply apply_wrapAsync_returns|].
    split; [reflexivity|].
    intros e w2. rewrite resume_rejected. apply settle_settles_on.
  - intros e w1 Hfn. rewrite (apply_wrapAsync_throws _ _ _ _ _ _ _ _ Hfn).
    apply settle_settles_on.
  - intros opts a rest w0 Hfallback Hopts.
    pose proof (wrapAsync_options fallback fn opts onError c w0 Hopts) as Hwrap.
    split.
    + unfold assertRouteAsync, bind at 1, get_heap.
      rewrite dispatch_general by exact Hfallback.
      erewrite bind_ok by exact Hwrap. reflexivity.
    + unfold assertRouteAsync, bind at 1, get_heap.
      rewrite dispatch_general by exact Hfallback.
      erewrite bind_ok by exact Hwrap. reflexivity.
Qed.

End Async.

(** C5, as stated, fails with a callback that throws.  The operation
    returns a pending result that is later rejected with a Failure: the
    promise of the wrapper is rejected with what the callback threw and
    does not resolve to the fallback [0].  The same happens when the
    operation fails an assertion before it suspends. *)
Lemma wrapAsync_counterexample :
  (exists w1,
     Demo.apply (VWrapAsync (VNum (NInt 0)) Demo.failsLater Demo.throwingCallback
                   (VBool false)) [] Demo.start
     = (Ok (VPromiseAwaiting (VRef 21) (VNum (NInt 0)) Demo.throwingCallback
              (VBool false)), w1)
     /\ instanceof_AssertError (w_heap w1) Demo.earlierFailure = true
     /\ fst (Demo.resume
               (VPromiseAwaiting (VRef 21) (VNum (NInt 0)) Demo.throwingCallback
                  (VBool false))
               (Rejected Demo.earlierFailure) w1)
        = Ok (VPromiseRejected (VStr (u "callback"))))
  /\
  (exists w1,
     Demo.apply Demo.failsAssert [] Demo.start = (Throw (VRef 21), w1)
     /\ instanceof_AssertError (w_heap w1) (VRef 21) = true
     /\ fst (Demo.apply (VWrapAsync (VNum (NInt 0)) Demo.failsAssert
                           Demo.throwingCallback (VBool false)) [] Demo.start)
        = Ok (VPromiseRejected (VStr (u "callback")))).
Proof.
  split.
  - exists (snd (Demo.apply Demo.failsLater [] Demo.start)).
    repeat split; vm_compute; reflexivity.
  - exists (snd (Demo.apply Demo.failsAssert [] Demo.start)).
    repeat split; vm_compute; reflexivity.
Qed.

Lemma wrapAsync_contract_witness :
  (exists w1,
     Demo.apply (VWrapAsync (VNum (NInt 0)) Demo.failsLater Demo.quietCallback
                   (VBool false)) [] Demo.start
     = (Ok (VPromiseAwaiting (VRef 21) (VNum (NInt 0)) Demo.quietCallback
              (VBool false)), w1)
     /\ exists r w',
          Demo.resume
            (VPromiseAwaiting (VRef 21) (VNum (NInt 0)) Demo.quietCallback (VBool false))
            (Rejected Demo.earlierFailure) w1
          = (Ok (promise_of r), w')
          /\ routed Demo.call Demo.stackTrace Demo.objectToString
               Demo.quietCallback (VNum (NInt 0)) Demo.earlierFailure w1 r w')
  /\
  (exists r w',
     Demo.apply (VWrapAsync (VNum (NInt 0)) Demo.failsAssert Demo.quietCallback
                   (VBool false)) [] Demo.start
     = (Ok (promise_of r), w')
     /\ routed Demo.call Demo.stackTrace Demo.objectToString
          Demo.quietCallback (VNum (NInt 0)) (VRef 21)
          (snd (Demo.apply Demo.failsAssert [] Demo.start)) r w')
  /\
  apply Samples.call Samples.stackTrace Samples.refusing
    (VWrapAsync (VNum (NInt 0)) Samples.throwsObject VUndefined (VBool true))
    [] Samples.start
  = (Ok (VPromiseRejected (VStr (u "no text"))),
     World Samples.objects [ECall 10 []; EToString Samples.ba]).
Proof.
  split; [|split]; [| |
    destruct (wrapAsync_contract Samples.call Samples.stackTrace Samples.refusing
                (VNum (NInt 0)) Samples.throwsObject VUndefined (VBool true)
                [] Samples.start) as (_ & _ & Hthrows & _);
    exact (proj2 (proj2 (Hthrows Samples.ba (World Samples.objects [ECall 10 []])
                           eq_refl)) eq_refl eq_refl)].
  - destruct (wrapAsync_contract Demo.call Demo.stackTrace Demo.objectToString
                (VNum (NInt 0)) Demo.failsLater Demo.quietCallback (VBool false)
                [] Demo.start) as (_ & Hreturns & _).
    destruct (Hreturns (VRef 21) (snd (Demo.apply Demo.failsLater [] Demo.start))
                eq_refl) as (Hpending & _ & Hrejected).
    exists (snd (Demo.apply Demo.failsLater [] Demo.start)).
    split; [exact Hpending|].
    exact (proj1 (Hrejected Demo.earlierFailure
                    (snd (Demo.apply Demo.failsLater [] Demo.start))) eq_refl).
  - destruct (wrapAsync_contract Demo.call Demo.stackTrace Demo.objectToString
                (VNum (NInt 0)) Demo.failsAssert Demo.quietCallback (VBool false)
                [] Demo.start) as (_ & _ & Hthrows & _).
    exact (proj1 (Hthrows (VRef 21) (snd (Demo.apply Demo.failsAssert [] Demo.start))
                    eq_refl) eq_refl).
Defined.

(** ** The library on the sample program *)

(** [assertRoute(0, () => 42)()] returns [42]. *)
Example route_success :
  fst (Demo.apply (VWrapSync (VNum (NInt 0)) Demo.returns42 VUndefined (VBool false))
         [] Demo.start)
  = Ok (VNum (NInt 42)).
Proof. vm_compute. reflexivity. Qed.

(** [assertRoute(0, () => { assert(false); return 99; })()] returns [0]. *)
Example route_failure :
  fst (Demo.apply (VWrapSync (VNum (NInt 0)) Demo.failsAssert VUndefined (VBool false))
         [] Demo.start)
  = Ok (VNum (NInt 0)).
Proof. vm_compute. reflexivity. Qed.

(** [assertRoute(0, () => { throw new Error('boom'); })()] throws that
    error; with [catchNonAssertErrors] it returns [0]. *)
Example route_other_exception :
  fst (Demo.apply (VWrapSync (VNum (NInt 0)) Demo.throwsError VUndefined (VBool false))
         [] Demo.start)
  = Throw (VRef 21)
  /\ w_heap (snd (Demo.apply Demo.throwsError [] Demo.start)) !! 21
     = Some (OError CError (u "boom") None [])
  /\ (exists wrapped,
        Demo.assertRoute [VNum (NInt 0); Demo.throwsError; Demo.recoverAll] Demo.start
        = (Ok wrapped, Demo.start)
        /\ fst (Demo.apply wrapped [] Demo.start) = Ok (VNum (NInt 0))).
Proof.
  split; [|split]; [vm_compute; reflexivity..|].
  exists (VWrapSync (VNum (NInt 0)) Demo.throwsError VUndefined (VBool true)).
  split; vm_compute; reflexivity.
Qed.

(** An object that contains itself and an object with a throwing getter
    are summarized by their keys. *)
Example summarize_objects :
  Demo.summarizeValue Demo.selfObject Demo.start
  = (Ok (u "object(keys=[self])"), Demo.start)
  /\ Demo.summarizeValue Demo.guarded Demo.start
     = (Ok (u "object(keys=[secret])"), Demo.start).
Proof. split; vm_compute; reflexivity. Qed.

(** Strings are cut after twelve code units. *)
Example summarize_string :
  Demo.summarizeValue (VStr (u "hello, wide world")) Demo.start
  = (Ok (u "string(len=17, sample=" ++ [34%N] ++ u "hello, wide " ++ ELLIPSIS
         ++ [34%N] ++ u ")"),
     Demo.start).
Proof. vm_compute. reflexivity. Qed.

(** The caller name is read from the fourth line of the stack trace. *)
Example caller_name :
  getCallerName
    (Some (u "Error" ++ [10%N] ++ u "    at getCallerName (a.js:5:17)" ++ [10%N]
           ++ u "    at new AssertError (a.js:36:20)" ++ [10%N]
           ++ u "    at assertString (a.js:300:9)" ++ [10%N]
           ++ u "    at main (a.js:1:1)"))
    3
  = Some (u "assertString").
Proof. vm_compute. reflexivity. Qed.

(** The async entry point binds its parameters in the same way as
    [assertRoute]: in the plain-function form the argument after the
    options is not passed on, in the general form it is, and the call
    made for it returns a promise. *)
Example routeAsync_trailing_arguments :
  Demo.assertRouteAsync [Demo.identity; VUndefined; VNum (NInt 7)] Demo.start
  = (Ok (VWrapAsync VUndefined Demo.identity VUndefined (VBool false)), Demo.start)
  /\
  Demo.assertRouteAsync [VNum (NInt 0); Demo.identity; VUndefined; VNum (NInt 7)]
    Demo.start
  = (Ok (VPromiseAwaiting (VNum (NInt 7)) (VNum (NInt 0)) VUndefined (VBool false)),
     World Demo.objects [ECall 4 [VNum (NInt 7)]]).
Proof. split; vm_compute; reflexivity. Qed.

(** * Further properties *)

(** ** The monad, inverted *)

Lemma bind_inv_ok {A B} (m : M A) (k : A -> M B) w b w' :
  bind m k w = (Ok b, w') ->
  exists a w1, m w = (Ok a, w1) /\ k a w1 = (Ok b, w').
Proof.
  unfold bind. destruct (m w) as [[a|e] w1]; [|discriminate].
  intros H. by exists a, w1.
Qed.

Lemma extends_refl w : extends w w.
Proof. by split. Qed.

Lemma extends_trans w1 w2 w3 : extends w1 w2 -> extends w2 w3 -> extends w1 w3.
Proof.
  intros [Hlog1 Hheap1] [Hlog2 Hheap2]. split; [congruence|auto].
Qed.

Lemma extends_alloc w (new : list obj) :
  extends w (World (w_heap w ++ new) (w_log w)).
Proof.
  split; [reflexivity|]. intros l o Hl. cbn [w_heap].
  by apply lookup_app_l_Some.
Qed.

(** ** The caller name *)

Lemma take_while_all (p : N -> bool) (s : ustring) :
  forallb p (take_while p s) = true.
Proof.
  induction s as [|c s IH]; [reflexivity|]. simpl.
  destruct (p c) eqn:Hc; [|reflexivity]. simpl. by rewrite Hc.
Qed.

Lemma match_at_wellformed (s name : ustring) :
  match_at s = Some name -> name <> [] /\ forallb is_name_unit name = true.
Proof.
  unfold match_at. destruct s as [|a [|t s]]; try discriminate.
  destruct ((a =? 97)%N && (t =? 116)%N); [|discriminate].
  destruct (take_while is_space s); [discriminate|].
  destruct (take_while is_name_unit (drop_while is_space s)) as [|c r] eqn:Hname;
    [discriminate|].
  intros [= <-]. split; [discriminate|].
  rewrite <- Hname. apply take_while_all.
Qed.

Lemma match_caller_wellformed (line name : ustring) :
  match_caller line = Some name -> name <> [] /\ forallb is_name_unit name = true.
Proof.
  induction line as [|c line IH]; cbn [match_caller].
  - discriminate.
  - destruct (match_at (c :: line)) as [found|] eqn:Hat.
    + intros [= Hname]. subst found. by apply (match_at_wellformed (c :: line)).
    + exact IH.
Qed.

(** X4: [getCallerName] finds no name when there is no stack trace, when
    the trace is empty and when it has no line at the offset.  A name it
    finds is never empty and is made of the characters of the group
    [[\w.$<>\[\]]] only. *)
Theorem getCallerName_wellformed (stack : option ustring) (stackOffset : nat) :
  (stack = None \/ stack = Some [] -> getCallerName stack stackOffset = None)
  /\
  (forall text,
     stack = Some text ->
     length (split 10 text) <= stackOffset ->
     getCallerName stack stackOffset = None)
  /\
  (forall name,
     getCallerName stack stackOffset = Some name ->
     name <> [] /\ forallb is_name_unit name = true).
Proof.
  split; [|split].
  - intros [-> | ->]; reflexivity.
  - intros text -> Hshort. unfold getCallerName.
    destruct text; [reflexivity|].
    by rewrite lookup_ge_None_2.
  - unfold getCallerName. intros name.
    destruct stack as [[|c text]|]; try discriminate.
    destruct (split 10 (c :: text) !! stackOffset) as [line|]; [|discriminate].
    apply match_caller_wellformed.
Qed.

Lemma getCallerName_wellformed_witness :
  getCallerName (Some []) 3 = None
  /\ getCallerName (Some (u "Error")) 3 = None
  /\ (u "assertString" <> []
      /\ forallb is_name_unit (u "assertString") = true).
Proof.
  destruct (getCallerName_wellformed (Some []) 3) as (Habsent & _ & _).
  destruct (getCallerName_wellformed (Some (u "Error")) 3) as (_ & Hshort & _).
  destruct (getCallerName_wellformed
              (Some (u "Error" ++ [10%N] ++ u "    at getCallerName (a.js:5:17)" ++ [10%N]
                     ++ u "    at new AssertError (a.js:36:20)" ++ [10%N]
                     ++ u "    at assertString (a.js:300:9)"))
              3) as (_ & _ & Hname).
  split; [apply Habsent; by right|].
  split; [apply (Hshort (u "Error")); [reflexivity|vm_compute; lia]|].
  apply Hname. vm_compute. reflexivity.
Defined.

(** ** The summarizer and the constructor, as seen from outside *)

Section Effects.

Variable stackTrace : option ustring.
Variable objectToString : value -> heap -> res ustring * heap.

Local Abbreviation summarizeValue := (summarizeValue objectToString).
Local Abbreviation type_summary := (type_summary objectToString).
Local Abbreviation new_AssertError := (new_AssertError stackTrace objectToString).
Local Abbreviation toAssertError := (toAssertError stackTrace objectToString).
Local Abbreviation assert := (assert stackTrace objectToString).

(** [JSON.stringify] changes nothing when it returns, and adds at most
    the [TypeError] it throws. *)
Lemma JSON_stringify_effect v w r w' :
  JSON_stringify v w = (r, w') ->
  extends w w'
  /\ match r with
     | Ok _ => w' = w
     | Throw _ => length (w_heap w') <= S (length (w_heap w))
     end.
Proof.
  unfold JSON_stringify. munfold.
  destruct (stringify _ _ _ v) as [[s|[| |e]]|]; intros [= <- <-];
    cbn [w_heap w_log]; (split; [|try reflexivity]);
    try apply extends_refl; try apply extends_alloc;
    try (rewrite length_app; cbn [length]; lia); lia.
Qed.

Lemma mapM_stringify_effect vs w r w' :
  mapM JSON_stringify vs w = (r, w') ->
  extends w w'
  /\ match r with
     | Ok _ => w' = w
     | Throw _ => length (w_heap w') <= S (length (w_heap w))
     end.
Proof.
  revert r w'. induction vs as [|v vs IH]; intros r w'; simpl.
  - intros [= <- <-]. split; [apply extends_refl|reflexivity].
  - unfold bind at 1. destruct (JSON_stringify v w) as [[s|e] w1] eqn:Hv.
    + destruct (JSON_stringify_effect _ _ _ _ Hv) as [_ ->].
      unfold bind at 1. destruct (mapM JSON_stringify vs w) as [[ss|e] w2] eqn:Hvs.
      * intros [= <- <-]. destruct (IH _ _ eq_refl) as [Hext ->].
        split; [apply extends_refl|reflexivity].
      * intros [= <- <-]. exact (IH _ _ eq_refl).
    + intros [= <- <-]. exact (JSON_stringify_effect _ _ _ _ Hv).
Qed.

Lemma take_length_le {A} (n : nat) (l : list A) : length (take n l) <= n.
Proof. rewrite length_take. lia. Qed.

(** X3: the summary of an object that is not an array lists its first
    three keys and closes the list, however many keys the object has: no
    ellipsis marks the keys left out. *)
Theorem summarizeValue_object v w :
  typeof (w_heap w) v = TObject ->
  is_null v = false ->
  is_array (w_heap w) v = None ->
  summarizeValue v w
  = (Ok (u "object(keys=[" ++ join (u ", ") (take 3 (Object_keys (w_heap w) v)) ++ u "])"),
     w).
Proof.
  intros Htype Hnull Harr. unfold summarizeValue. unfold bind at 1, get_heap.
  rewrite Harr, Htype.
  pose proof (take_length_le 3 (Object_keys (w_heap w) v)) as Hlen.
  destruct (3 <? length (take 3 (Object_keys (w_heap w) v))) eqn:Hlt.
  - apply Nat.ltb_lt in Hlt. lia.
  - destruct v; try discriminate; reflexivity.
Qed.

(** X1: a Failure that the constructor builds is an [AssertError] with
    the [code] ["ASSERT_FAILED"] and a text that is never empty.  A message
    that is not empty is the start of the text; an empty one is replaced
    by ["<caller> failed"]. *)
Theorem new_AssertError_message message info cause w e w' :
  new_AssertError message info cause w = (Ok e, w') ->
  exists l text kept ps,
    e = VRef l
    /\ w_heap w' !! l = Some (OError CAssertError text kept ps)
    /\ text <> []
    /\ assoc (u "code") ps = Some (PData (VStr (u "ASSERT_FAILED")))
    /\ (message <> [] -> is_prefix message text = true)
    /\ (message = [] ->
        is_prefix (default (u "assert") (getCallerName stackTrace 3) ++ u " failed") text
        = true).
Proof.
  intros H. unfold new_AssertError in H.
  apply bind_inv_ok in H as (summary & w1 & _ & H).
  unfold bind, alloc, spread, store, ret in H. cbn [w_heap w_log] in H.
  destruct (spread_props _) as [copied|x]; [|discriminate].
  cbn [w_heap w_log] in H. rewrite store_first in H. injection H as <- <-.
  eexists _, _, _, _. split; [reflexivity|]. cbn [w_heap].
  split; [by rewrite list_lookup_middle|].
  assert (Hprefix : forall a b : ustring, is_prefix a (a ++ b) = true).
  { intros a b. induction a as [|c a IH]; [by destruct b|].
    simpl. by rewrite N.eqb_refl, IH. }
  assert (Hself : forall a : ustring, is_prefix a a = true).
  { intros a. rewrite <- (app_nil_r a) at 2. apply Hprefix. }
  split; [|split; [reflexivity|split]].
  - unfold full_message.
    destruct message as [|c message]; destruct summary as [[|d summary]|];
      try discriminate;
      destruct (default (u "assert") (getCallerName stackTrace 3)); discriminate.
  - intros Hmessage. unfold full_message.
    destruct message as [|c message]; [done|].
    destruct summary as [[|d summary]|]; [apply Hself|apply Hprefix|apply Hself].
  - intros ->. unfold full_message.
    destruct summary as [[|d summary]|]; [apply Hself|apply Hprefix|apply Hself].
Qed.

(** X5: normalization is idempotent: what [toAssertError] returns is
    returned as it is, in the same world, when normalized again. *)
Theorem toAssertError_idempotent e w ae w1 :
  toAssertError e w = (Ok ae, w1) ->
  toAssertError ae w1 = (Ok ae, w1).
Proof.
  intros H. apply toAssertError_failure.
  by apply (toAssertError_returns_failure stackTrace objectToString e w).
Qed.


End Effects.

(** ** More on the route wrappers *)

Section Wrappers.

Variable call : fid -> list value -> heap -> res value * heap.
Variable stackTrace : option ustring.
Variable objectToString : value -> heap -> res ustring * heap.

Local Abbreviation apply := (apply call stackTrace objectToString).
Local Abbreviation handleError := (handleError call stackTrace objectToString).
Local Abbreviation toAssertError := (toAssertError stackTrace objectToString).
Local Abbreviation routed := (routed call stackTrace objectToString).
Local Abbreviation all_pass := (all_pass call stackTrace objectToString).

(** [handleError] without a callback. *)
Lemma handleError_silent e onError c fallback w :
  is_nullish onError = true ->
  handleError e onError c fallback w
  = if instanceof_AssertError (w_heap w) e then (Ok fallback, w)
    else if truthy c
         then match toAssertError e w with
              | (Ok _, w1) => (Ok fallback, w1)
              | (Throw x, w1) => (Throw x, w1)
              end
         else (Throw e, w).
Proof.
  intros Hnull.
  assert (Hquiet : forall x w0,
            (let* _ := optional_call apply onError [x] in ret fallback) w0
            = (Ok fallback, w0)).
  { intros x w0. unfold bind, optional_call. by rewrite Hnull. }
  destruct (instanceof_AssertError (w_heap w) e) eqn:He.
  - by rewrite (handleError_failure _ _ _ _ _ _ _ _ He), Hquiet.
  - destruct (truthy c) eqn:Hc.
    + rewrite (handleError_recover _ _ _ _ _ _ _ _ He Hc). unfold bind at 1.
      destruct (toAssertError e w) as [[ae|x] w1]; [apply Hquiet|reflexivity].
    + by rewrite (handleError_rethrow _ _ _ _ _ _ _ _ He Hc).
Qed.



Lemma apply_not_function f args w :
  is_function (w_heap w) f = false ->
  apply f args w
  = (Throw (VRef (length (w_heap w))),
     World (w_heap w ++ [OError CTypeError (u "fn is not a function") None []])
           (w_log w)).
Proof.
  unfold is_function. intros Hf.
  destruct f; try reflexivity; try discriminate.
  simpl in *. unfold bind, get_heap.
  destruct (w_heap w !! l) as [[]|]; try reflexivity; discriminate.
Qed.

(** X9: wrapping a value that is not callable does not fail:
    [wrapSync] returns a wrapper.  Calling the wrapper throws a new
    [TypeError]; with [catchNonAssertErrors] false or absent that
    [TypeError] is what the wrapper throws: the fallback is not used and
    the callback is not called. *)
Theorem wrapSync_not_callable fallback fn opts onError c w0 args w :
  read_options opts w0 = (Ok (onError, c), w0) ->
  is_function (w_heap w) fn = false ->
  truthy c = false ->
  exists wrapped,
    wrapSync fallback fn opts w0 = (Ok wrapped, w0)
    /\ apply wrapped args w
       = (Throw (VRef (length (w_heap w))),
          World (w_heap w ++ [OError CTypeError (u "fn is not a function") None []])
                (w_log w)).
Proof.
  intros Hopts Hf Hc. exists (VWrapSync fallback fn onError c).
  split; [by apply wrapSync_options|].
  rewrite (apply_wrapSync_throw _ _ _ _ _ _ _ _ _ _ _ (apply_not_function _ _ _ Hf)).
  apply handleError_rethrow; [|exact Hc].
  cbn [w_heap instanceof_AssertError]. by rewrite list_lookup_middle.
Qed.

(** X10: wrappers nest from the inside out.  A Failure thrown by [fn] is
    routed by the inner wrapper; if the inner callback does not throw,
    the outer wrapper returns the inner fallback and its own callback and
    fallback are not used. *)
Theorem wrapSync_nested inner outer fn onError1 onError2 c1 c2 args w e w1 w2 :
  apply fn args w = (Throw e, w1) ->
  instanceof_AssertError (w_heap w1) e = true ->
  routed onError1 inner e w1 (Ok inner) w2 ->
  apply (VWrapSync outer (VWrapSync inner fn onError1 c1) onError2 c2) args w
  = (Ok inner, w2).
Proof.
  intros Hfn He Hrouted. apply apply_wrapSync_ok.
  rewrite (apply_wrapSync_throw _ _ _ _ _ _ _ _ _ _ _ Hfn).
  rewrite (handleError_failure _ _ _ _ _ _ _ _ He).
  unfold bind, optional_call.
  inversion Hrouted as [Hnull | v w' Hnull Happ | x w' Hnull Happ]; subst.
  - by rewrite Hnull.
  - by rewrite Hnull, Happ.
Qed.

End Wrappers.

(** ** More on the validator *)

Section ValidatorMore.

Variable call : fid -> list value -> heap -> res value * heap.
Variable stackTrace : option ustring.
Variable objectToString : value -> heap -> res ustring * heap.

Local Abbreviation apply := (apply call stackTrace objectToString).
Local Abbreviation all_pass := (all_pass call stackTrace objectToString).

Lemma isValid_all_pass assertions args w w' :
  all_pass args assertions w w' ->
  apply (isValid assertions) args w = (Ok (VBool true), w').
Proof.
  intros Hall. rewrite apply_isValid. unfold try_catch.
  erewrite bind_ok by (apply run_assertions_pass; exact Hall). reflexivity.
Qed.

Lemma isValid_first_throw pre a post args w w1 e w2 :
  all_pass args pre w w1 ->
  apply a args w1 = (Throw e, w2) ->
  apply (isValid (pre ++ a :: post)) args w
  = (if instanceof_AssertError (w_heap w2) e then Ok (VBool false) else Throw e, w2).
Proof.
  intros Hpre Ha. rewrite apply_isValid. unfold try_catch.
  erewrite bind_throw by (eapply run_assertions_first_throw; eauto).
  unfold bind, get_heap.
  destruct (instanceof_AssertError (w_heap w2) e); reflexivity.
Qed.

(** X11: a validator returns [true] or [false] and nothing else, and what
    it throws is never a Failure. *)
Theorem isValid_outcomes assertions args w :
  match apply (isValid assertions) args w with
  | (Ok v, _) => v = VBool true \/ v = VBool false
  | (Throw e, w') => instanceof_AssertError (w_heap w') e = false
  end.
Proof.
  destruct (run_assertions_cases call stackTrace objectToString assertions args w)
    as [[w' Hall]|(pre & a & post & e & w1 & w2 & -> & Hpre & Ha)].
  - rewrite (isValid_all_pass _ _ _ _ Hall). by left.
  - rewrite (isValid_first_throw _ _ post _ _ _ _ _ Hpre Ha).
    destruct (instanceof_AssertError (w_heap w2) e) eqn:He; [by right|exact He].
Qed.

Lemma isValid_true_all_pass assertions args w w' :
  apply (isValid assertions) args w = (Ok (VBool true), w') ->
  all_pass args assertions w w'.
Proof.
  destruct (run_assertions_cases call stackTrace objectToString assertions args w)
    as [[w0 Hall]|(pre & a & post & e & w1 & w2 & -> & Hpre & Ha)].
  - rewrite (isValid_all_pass _ _ _ _ Hall). by intros [= <-].
  - rewrite (isValid_first_throw _ _ post _ _ _ _ _ Hpre Ha).
    destruct (instanceof_AssertError (w_heap w2) e); discriminate.
Qed.

Lemma all_pass_app first second args w w1 w2 :
  all_pass args first w w1 ->
  all_pass args second w1 w2 ->
  all_pass args (first ++ second) w w2.
Proof.
  induction 1 as [w|a rest v w w0 w1 Ha _ IH]; intros Hsecond; [exact Hsecond|].
  cbn [app]. econstructor; eauto.
Qed.

Lemma run_assertions_app first second args w w1 :
  all_pass args first w w1 ->
  run_assertions apply (first ++ second) args w = run_assertions apply second args w1.
Proof.
  induction 1 as [w|a rest v w w0 w1 Ha _ IH]; [reflexivity|].
  cbn [app run_assertions]. by erewrite bind_ok by exact Ha.
Qed.

(** X12: validators compose.  The validator of two lists of assertions
    put together does what the validator of the first list does, and if
    that returns [true], goes on as the validator of the second list in
    the world the first one left. *)
Theorem isValid_app first second args w :
  match apply (isValid first) args w with
  | (Ok (VBool true), w1) =>
      apply (isValid (first ++ second)) args w = apply (isValid second) args w1
  | (r, w1) => apply (isValid (first ++ second)) args w = (r, w1)
  end.
Proof.
  destruct (run_assertions_cases call stackTrace objectToString first args w)
    as [[w1 Hall]|(pre & a & post & e & w1 & w2 & -> & Hpre & Ha)].
  - rewrite (isValid_all_pass _ _ _ _ Hall).
    rewrite !apply_isValid. unfold try_catch, bind at 1 3.
    by rewrite (run_assertions_app _ _ _ _ _ Hall).
  - rewrite (isValid_first_throw _ _ post _ _ _ _ _ Hpre Ha).
    rewrite <- app_assoc. cbn [app].
    rewrite (isValid_first_throw _ _ (post ++ second) _ _ _ _ _ Hpre Ha).
    destruct (instanceof_AssertError (w_heap w2) e); reflexivity.
Qed.

End ValidatorMore.

(** ** The order of keys *)

Lemma ustring_eqb_eq (a b : ustring) : ustring_eqb a b = true <-> a = b.
Proof.
  revert b. induction a as [|x a IH]; intros [|y b]; simpl; try done.
  rewrite andb_true_iff, N.eqb_eq, IH. split; [intros [-> ->]|intros [= -> ->]]; done.
Qed.

Lemma ustring_ltb_irrefl (a : ustring) : ustring_ltb a a = false.
Proof.
  induction a as [|x a IH]; simpl; [done|].
  rewrite N.ltb_irrefl, N.eqb_refl, IH. done.
Qed.

Lemma ustring_ltb_trichotomy (a b : ustring) :
  ustring_ltb a b = false -> ustring_ltb b a = false -> a = b.
Proof.
  revert b. induction a as [|x a IH]; intros [|y b]; simpl; try done.
  rewrite !orb_false_iff, !andb_false_iff, !N.ltb_ge, !N.eqb_neq.
  intros [Hyx [Hne|Hab]] [Hxy [Hne'|Hba]]; try lia.
  assert (x = y) as -> by lia. f_equal. by apply IH.
Qed.

Lemma ustring_ltb_asym (a b : ustring) :
  ustring_ltb a b = true -> ustring_ltb b a = false.
Proof.
  revert b. induction a as [|x a IH]; intros [|y b]; simpl; try done.
  rewrite orb_true_iff, andb_true_iff, orb_false_iff, andb_false_iff,
    N.ltb_lt, N.ltb_ge, !N.eqb_eq, N.eqb_neq.
  intros [Hlt|[-> Hab]].
  - split; [lia|left; lia].
  - split; [lia|right; by apply IH].
Qed.

Lemma ustring_ltb_trans (a b c : ustring) :
  ustring_ltb a b = true -> ustring_ltb b c = true -> ustring_ltb a c = true.
Proof.
  revert b c. induction a as [|x a IH]; intros [|y b] [|z c]; simpl; try done.
  rewrite !orb_true_iff, !andb_true_iff, !N.ltb_lt, !N.eqb_eq.
  intros [Hxy|[-> Hab]] [Hyz|[-> Hbc]]; try (left; lia).
  right. split; [done|]. by eapply IH.
Qed.

#[global] Instance ustring_le_total : Total ustring_le.
Proof.
  intros a b. unfold ustring_le.
  destruct (ustring_ltb b a) eqn:Hba; [right; by apply ustring_ltb_asym|by left].
Qed.

#[global] Instance ustring_le_antisymm : AntiSymm (=) ustring_le.
Proof. intros a b Hab Hba. by apply ustring_ltb_trichotomy. Qed.

#[global] Instance ustring_le_trans : Transitive ustring_le.
Proof.
  intros a b c Hab Hbc. unfold ustring_le in *.
  destruct (ustring_ltb c a) eqn:Hca; [|done].
  destruct (ustring_ltb b a) eqn:Hba; [done|].
  destruct (ustring_ltb a b) eqn:Hab'.
  - pose proof (ustring_ltb_trans _ _ _ Hca Hab') as Hcb. congruence.
  - assert (a = b) as -> by by apply ustring_ltb_trichotomy. congruence.
Qed.

(** Sorting gives the same list exactly for rearrangements of one
    another. *)
Lemma sort_keys_eq (a b : list ustring) :
  sort_keys a = sort_keys b <-> a ≡ₚ b.
Proof.
  unfold sort_keys. split.
  - intros Heq. rewrite <- (merge_sort_Permutation ustring_le a), Heq.
    apply merge_sort_Permutation.
  - intros Hperm. apply (Sorted_unique ustring_le).
    + apply Sorted_merge_sort, _.
    + apply Sorted_merge_sort, _.
    + by rewrite !merge_sort_Permutation.
Qed.

Lemma same_items_eq (a b : list ustring) : same_items a b = true <-> a = b.
Proof.
  unfold same_items. rewrite andb_true_iff, Nat.eqb_eq, forallb_forall. split.
  - intros [Hlen Hall]. apply list_eq. intros i.
    destruct (a !! i) as [k|] eqn:Hk.
    + specialize (Hall (i, k)). cbv beta iota in Hall.
      destruct (b !! i) as [k'|].
      * symmetry. f_equal. symmetry. apply ustring_eqb_eq, Hall.
        apply list_elem_of_In, elem_of_lookup_imap. by exists i, k.
      * exfalso. apply diff_false_true, Hall.
        apply list_elem_of_In, elem_of_lookup_imap. by exists i, k.
    + symmetry. apply lookup_ge_None. rewrite <- Hlen. by apply lookup_ge_None.
  - intros <-. split; [done|]. intros [i k] Hin.
    apply list_elem_of_In, elem_of_lookup_imap in Hin as (i' & k' & [= -> ->] & Hk).
    rewrite Hk. by apply ustring_eqb_eq.
Qed.

(** ** The type guards *)

(** X13: the six type guards exclude one another, and together they accept
    every value but [undefined], [null], the BigInts, the symbols, [NaN]
    and the infinities. *)
Theorem type_guards_partition (h : heap) (x : value) :
  count_true (guards_passed h x) = if unguarded x then 0 else 1.
Proof.
  unfold guards_passed, isString, isNumber, isBoolean, isArray, isObject,
    isFunction, Array_isArray.
  destruct x as [| | |n| | |l| | | | | | |]; try reflexivity.
  - destruct n; reflexivity.
  - cbn [typeof is_array is_null unguarded Number_isFinite].
    destruct (h !! l) as [[]|]; reflexivity.
Qed.

Lemma isString_inv h x : isString h x = true -> exists s, x = VStr s.
Proof.
  unfold isString. destruct x; try discriminate; [by eexists|].
  cbn [typeof]. destruct (h !! l) as [[]|]; discriminate.
Qed.

Lemma isNumber_inv h x :
  isNumber h x = true -> exists n, x = VNum n /\ number_is_finite n = true.
Proof.
  unfold isNumber. destruct x; try discriminate.
  - cbn. intros Hn. by eexists.
  - cbn [typeof]. destruct (h !! l) as [[]|]; discriminate.
Qed.

Lemma isBoolean_inv h x : isBoolean h x = true -> exists b, x = VBool b.
Proof.
  unfold isBoolean. destruct x; try discriminate; [by eexists|].
  cbn [typeof]. destruct (h !! l) as [[]|]; discriminate.
Qed.

Lemma isArray_inv h x : isArray h x = true -> exists elems, is_array h x = Some elems.
Proof.
  unfold isArray, Array_isArray. destruct (is_array h x); [by eexists|discriminate].
Qed.

Lemma isObject_inv h x :
  isObject h x = true ->
  typeof h x = TObject /\ x <> VNull /\ is_array h x = None.
Proof.
  unfold isObject, Array_isArray. rewrite !andb_true_iff, !negb_true_iff.
  intros [[Ht Hnull] Harr]. repeat split.
  - by destruct (typeof h x).
  - by intros ->.
  - by destruct (is_array h x).
Qed.

(** ** Assertions with a [got] entry *)

Lemma store_last (h : heap) (a b : obj) : <[length h := b]> (h ++ [a]) = h ++ [b].
Proof. rewrite insert_app_r_alt by lia. by rewrite Nat.sub_diag. Qed.

Lemma info_with_got_undefined got w :
  info_with_got VUndefined got w
  = match got (with_literal w) with
    | (Ok g, w2) =>
        (Ok (VRef (length (w_heap w))),
         World (<[length (w_heap w) := OObject [(u "got", PData g)]]> (w_heap w2))
               (w_log w2))
    | (Throw e, w2) => (Throw e, w2)
    end.
Proof.
  unfold info_with_got, with_literal. munfold. cbn [w_heap w_log own_props spread_props].
  by destruct (got _) as [[g|e] w2].
Qed.

Section GuardProperties.

Variable stackTrace : option ustring.
Variable objectToString : value -> heap -> res ustring * heap.
Variable typeOfDetailed_rest : value -> M ustring.

Local Abbreviation assert := (assert stackTrace objectToString).
Local Abbreviation summarizeValue := (summarizeValue objectToString).
Local Abbreviation typeOfDetailed := (typeOfDetailed typeOfDetailed_rest).
Local Abbreviation throws_failure := (throws_failure stackTrace).
Local Abbreviation assert_typed := (assert_typed stackTrace objectToString typeOfDetailed_rest).
Local Abbreviation assertArray := (assertArray stackTrace objectToString typeOfDetailed_rest).
Local Abbreviation assertObject := (assertObject stackTrace objectToString).
Local Abbreviation assertString := (assertString stackTrace objectToString typeOfDetailed_rest).
Local Abbreviation assertNumber := (assertNumber stackTrace objectToString typeOfDetailed_rest).
Local Abbreviation assertBoolean := (assertBoolean stackTrace objectToString typeOfDetailed_rest).
Local Abbreviation assertFunction := (assertFunction stackTrace objectToString typeOfDetailed_rest).
Local Abbreviation assertDefined := (assertDefined stackTrace objectToString typeOfDetailed_rest).
Local Abbreviation assertNonNull := (assertNonNull stackTrace objectToString typeOfDetailed_rest).
Local Abbreviation assertPresent := (assertPresent stackTrace objectToString typeOfDetailed_rest).

(** A failing [assert] with no [info]. *)
Lemma assert_fails message w :
  throws_failure message w (assert (VBool false) (Some message) VUndefined w).
Proof.
  eexists _, _. split.
  - eapply (assert_throws_failure stackTrace objectToString (VBool false)
              (Some message) VUndefined w None []); try done.
  - cbn [w_heap w_log default]. repeat split.
    + unfold instanceof_AssertError. by rewrite failure_at_error.
    + unfold instanceof_AssertError.
      by rewrite (proj2 (lookup_ge_None (w_heap w) (length (w_heap w)))) by lia.
    + unfold error_message. by rewrite failure_at_error.
    + apply (extends_alloc w).
Qed.

Lemma assert_plain (holds : bool) message w :
  let r := assert (VBool holds) (Some message) VUndefined w in
  if holds then r = (Ok VUndefined, w) else throws_failure message w r.
Proof. destruct holds; [reflexivity|apply assert_fails]. Qed.

(** A failing [assert] whose [info] is the literal [{ got: g }] just
    built. *)
Lemma assert_fails_got message g w :
  throws_failure message w
    (assert (VBool false) (Some message) (VRef (length (w_heap w)))
       (World (w_heap w ++ [OObject [(u "got", PData g)]]) (w_log w))).
Proof.
  set (w1 := World (w_heap w ++ [OObject [(u "got", PData g)]]) (w_log w)).
  assert (Hprops : own_props (w_heap w1) (VRef (length (w_heap w)))
                   = [(u "got", PData g)]).
  { unfold own_props, w1. cbn [w_heap].
    by rewrite lookup_app_r, Nat.sub_diag by lia. }
  eexists _, _. split.
  - eapply (assert_throws_failure stackTrace objectToString (VBool false)
              (Some message) (VRef (length (w_heap w))) w1 None [(u "got", PData g)]).
    + done.
    + unfold allocated, w1. cbn [w_heap]. rewrite length_app. cbn [length]. lia.
    + apply type_summary_no_value. rewrite Hprops. reflexivity.
    + rewrite Hprops. reflexivity.
  - cbn [w_heap w_log default]. repeat split.
    + unfold instanceof_AssertError. by rewrite failure_at_error.
    + unfold instanceof_AssertError.
      by rewrite (proj2 (lookup_ge_None (w_heap w) (length (w_heap w1)))) 
        by (unfold w1; cbn [w_heap]; rewrite length_app; lia).
    + unfold error_message. by rewrite failure_at_error.
    + unfold w1. cbn [w_heap w_log]. rewrite <- app_assoc. apply (extends_alloc w).
Qed.

(** The shape [assert(holds, message, { got: ... })] of the guards, where
    the [got] entry is computed without changing anything. *)
Lemma guarded_assert (holds : bool) got message w :
  (let* infoGot := info_with_got VUndefined got in
   assert (VBool holds) (Some message) infoGot) w
  = match got (with_literal w) with
    | (Ok g, w2) =>
        assert (VBool holds) (Some message) (VRef (length (w_heap w)))
          (World (<[length (w_heap w) := OObject [(u "got", PData g)]]> (w_heap w2))
                 (w_log w2))
    | (Throw e, w2) => (Throw e, w2)
    end.
Proof.
  unfold bind at 1. rewrite info_with_got_undefined.
  by destruct (got _) as [[g|e] w2].
Qed.

Lemma guarded_assert_pure (holds : bool) got message w g :
  got (with_literal w) = (Ok g, with_literal w) ->
  let r := (let* infoGot := info_with_got VUndefined got in
            assert (VBool holds) (Some message) infoGot) w in
  if holds then passes w r else throws_failure message w r.
Proof.
  intros Hgot r. subst r. rewrite guarded_assert, Hgot.
  unfold with_literal. cbn [w_heap w_log]. rewrite store_last.
  destruct holds.
  - by eexists.
  - apply assert_fails_got.
Qed.

Lemma passes_inv w r :
  passes w r -> exists w', r = (Ok VUndefined, w') /\ extends w w'.
Proof.
  intros [got ->]. eexists. split; [reflexivity|]. apply (extends_alloc w).
Qed.

Lemma guarded_assert_throws (holds : bool) got message w e w' :
  got (with_literal w) = (Throw e, w') ->
  (let* infoGot := info_with_got VUndefined got in
   assert (VBool holds) (Some message) infoGot) w = (Throw e, w').
Proof. intros Hgot. by rewrite guarded_assert, Hgot. Qed.

Lemma is_array_literal h x ps : is_array (h ++ [OObject ps]) x = is_array h x.
Proof.
  destruct x; try reflexivity. cbn [is_array].
  destruct (decide (l < length h)).
  - by rewrite lookup_app_l.
  - rewrite (proj2 (lookup_ge_None h l)) by lia. rewrite lookup_app_r by lia.
    by destruct (l - length h) as [|k].
Qed.

Lemma typeof_literal h x ps : typeof (h ++ [OObject ps]) x = typeof h x.
Proof.
  destruct x; try reflexivity. cbn [typeof].
  destruct (decide (l < length h)).
  - by rewrite lookup_app_l.
  - rewrite (proj2 (lookup_ge_None h l)) by lia. rewrite lookup_app_r by lia.
    by destruct (l - length h) as [|k].
Qed.

Lemma assert_ok_inv condition message info w v w' :
  assert condition message info w = (Ok v, w') ->
  truthy condition = true /\ v = VUndefined /\ w' = w.
Proof.
  unfold assert. destruct (truthy condition); [by intros [= <- <-]|].
  unfold bind. by destruct (new_AssertError _ _ _ _ _ _) as [[e|e] w1].
Qed.

Lemma assert_typed_ok_inv isT x message info w v w' :
  assert_typed isT x message info w = (Ok v, w') ->
  isT (w_heap w) x = true /\ v = VUndefined.
Proof.
  unfold assert_typed. unfold bind at 1, get_heap. intros Hok.
  apply bind_inv_ok in Hok as (infoGot & w1 & _ & Hok).
  apply assert_ok_inv in Hok as (Hc & -> & _). done.
Qed.

Lemma assertArray_ok_inv x message info w v w' :
  assertArray x message info w = (Ok v, w') ->
  isArray (w_heap w) x = true /\ v = VUndefined.
Proof.
  unfold assertArray. unfold bind at 1, get_heap. intros Hok.
  apply bind_inv_ok in Hok as (infoGot & w1 & _ & Hok).
  apply assert_ok_inv in Hok as (Hc & -> & _). done.
Qed.

Lemma assertObject_ok_inv x message info w v w' :
  assertObject x message info w = (Ok v, w') ->
  isObject (w_heap w) x = true /\ v = VUndefined.
Proof.
  unfold assertObject. unfold bind at 1, get_heap. intros Hok.
  apply bind_inv_ok in Hok as (infoGot & w1 & _ & Hok).
  apply assert_ok_inv in Hok as (Hc & -> & _). done.
Qed.

(** ** [typeOfDetailed] *)

Lemma typeOfDetailed_reads_only :
  reads_only typeOfDetailed_rest -> reads_only typeOfDetailed.
Proof.
  intros Hrest x w s w'. unfold typeOfDetailed.
  destruct (is_null x); [by intros [= _ <-]|].
  unfold bind at 1, get_heap.
  destruct (is_array (w_heap w) x) as [elems|]; [|apply Hrest].
  unfold bind.
  destruct (mapM JSON_stringify (take 3 elems) w) as [[parts|e] w1] eqn:Hparts;
    [|discriminate].
  apply mapM_stringify_effect in Hparts as [_ ->]. by intros [= _ <-].
Qed.

(** X14: on an array with at least one element [typeOfDetailed] does what
    [summarizeValue] does: the same text, or the same exception of
    [JSON.stringify].  On the empty array the two differ. *)
Theorem typeOfDetailed_array x elems w :
  is_array (w_heap w) x = Some elems ->
  match elems with
  | [] => typeOfDetailed x w = (Ok (u "array(len=0)"), w)
          /\ summarizeValue x w = (Ok (u "array(len=0, sample=[])"), w)
  | _ :: _ => typeOfDetailed x w = summarizeValue x w
  end.
Proof.
  intros Harr. destruct x as [| | | | | |l| | | | | | |]; try discriminate.
  destruct elems as [|first rest].
  - unfold typeOfDetailed, summarizeValue. cbn [is_null].
    unfold bind at 1, get_heap. unfold bind at 2. rewrite !Harr. by split.
  - destruct (mapM JSON_stringify (take 3 (first :: rest)) w) as [[parts|e] w1]
      eqn:Hparts.
    + assert (w1 = w) as -> by (by apply mapM_stringify_effect in Hparts as [_ ->]).
      rewrite (summarizeValue_array objectToString _ _ _ _ Harr Hparts).
      unfold typeOfDetailed. cbn [is_null]. unfold bind at 1, get_heap.
      rewrite Harr. erewrite bind_ok by exact Hparts.
      unfold ret, array_summary. do 2 f_equal. cbn [length Nat.ltb Nat.leb].
      rewrite <- !app_assoc. reflexivity.
    + rewrite (summarizeValue_array_throws objectToString _ _ _ _ _ Harr Hparts).
      unfold typeOfDetailed. cbn [is_null]. unfold bind at 1, get_heap.
      rewrite Harr. by erewrite bind_throw by exact Hparts.
Qed.

(** ** The guards on the type of a value *)

Lemma assert_typed_contract isT expected :
  reads_only typeOfDetailed_rest ->
  typed_guard_contract stackTrace typeOfDetailed isT expected
    (fun x message info => assert_typed isT x (default expected message) info).
Proof.
  intros Hpure x message w.
  destruct (typeOfDetailed x (with_literal w)) as [[s|e] w2] eqn:Hd.
  - assert (w2 = with_literal w) as ->
      by (eapply typeOfDetailed_reads_only; eauto).
    pose proof (guarded_assert_pure (isT (w_heap w) x)
                  (got_detailed typeOfDetailed_rest x)
                  (default expected message) w (VStr s)) as Hcases.
    apply Hcases.
    unfold got_detailed. by erewrite bind_ok by exact Hd.
  - unfold assert_typed. unfold bind at 1, get_heap.
    apply guarded_assert_throws.
    unfold got_detailed. by erewrite bind_throw by exact Hd.
Qed.

(** X15: the typed guards [assertString], [assertNumber], [assertBoolean],
    [assertFunction], [assertDefined], [assertNonNull] and
    [assertPresent] all evaluate [typeOfDetailed(x)] before they decide.
    What it throws, they throw, also on a value of the right type.
    Where it returns, each guard passes exactly on the values its type
    guard accepts, changing nothing but for one new object, and throws
    a Failure with the expected message on the others. *)
Theorem typed_guards_contract :
  reads_only typeOfDetailed_rest ->
  typed_guard_contract stackTrace typeOfDetailed isString (u "Expected string")
    assertString
  /\ typed_guard_contract stackTrace typeOfDetailed isNumber (u "Expected number")
       assertNumber
  /\ typed_guard_contract stackTrace typeOfDetailed isBoolean (u "Expected boolean")
       assertBoolean
  /\ typed_guard_contract stackTrace typeOfDetailed isFunction (u "Expected function")
       assertFunction
  /\ typed_guard_contract stackTrace typeOfDetailed (fun _ => isDefined)
       (u "Expected defined") assertDefined
  /\ typed_guard_contract stackTrace typeOfDetailed (fun _ => isNonNull)
       (u "Expected non-null") assertNonNull
  /\ typed_guard_contract stackTrace typeOfDetailed (fun _ => isPresent)
       (u "Expected value present") assertPresent.
Proof.
  intros Hpure. repeat split; apply assert_typed_contract; exact Hpure.
Qed.

Lemma assertArray_passes x message w :
  isArray (w_heap w) x = true ->
  passes w (assertArray x message VUndefined w).
Proof.
  intros Harr.
  assert (Hgot : (let* h' := get_heap in
                  if Array_isArray h' x then ret (VStr (u "array"))
                  else got_detailed typeOfDetailed_rest x) (with_literal w)
                 = (Ok (VStr (u "array")), with_literal w)).
  { unfold bind at 1, get_heap, with_literal, Array_isArray. cbn [w_heap].
    rewrite is_array_literal. unfold isArray, Array_isArray in Harr.
    by destruct (is_array (w_heap w) x). }
  pose proof (guarded_assert_pure (isArray (w_heap w) x) _
                (default (u "Expected array") message) w _ Hgot) as Hcases.
  unfold assertArray. unfold bind at 1, get_heap.
  rewrite Harr in Hcases |- *. exact Hcases.
Qed.

(** X16: [assertArray] passes on every array, whatever [typeOfDetailed]
    would do, and changes nothing but for one new object.  On a value
    that is not an array it throws what [typeOfDetailed(x)] throws, or a
    Failure with the expected message. *)
Theorem assertArray_contract x message w :
  if isArray (w_heap w) x
  then passes w (assertArray x message VUndefined w)
  else reads_only typeOfDetailed_rest ->
       match typeOfDetailed x (with_literal w) with
       | (Throw e, w') => assertArray x message VUndefined w = (Throw e, w')
       | (Ok _, _) =>
           throws_failure (default (u "Expected array") message) w
             (assertArray x message VUndefined w)
       end.
Proof.
  destruct (isArray (w_heap w) x) eqn:Harr; [by apply assertArray_passes|].
  intros Hpure.
  assert (Hgot : (let* h' := get_heap in
                  if Array_isArray h' x then ret (VStr (u "array"))
                  else got_detailed typeOfDetailed_rest x) (with_literal w)
                 = got_detailed typeOfDetailed_rest x (with_literal w)).
  { unfold bind at 1, get_heap, with_literal, Array_isArray. cbn [w_heap].
    rewrite is_array_literal. unfold isArray, Array_isArray in Harr.
    by destruct (is_array (w_heap w) x). }
  destruct (typeOfDetailed x (with_literal w)) as [[s|e] w2] eqn:Hd.
  - assert (w2 = with_literal w) as ->
      by (eapply typeOfDetailed_reads_only; eauto).
    pose proof (guarded_assert_pure (isArray (w_heap w) x) _
                  (default (u "Expected array") message) w (VStr s)
                  (eq_trans Hgot (bind_ok _ _ _ _ _ Hd))) as Hcases.
    unfold assertArray. unfold bind at 1, get_heap.
    rewrite Harr in Hcases |- *. exact Hcases.
  - exact (guarded_assert_throws (isArray (w_heap w) x) _
             (default (u "Expected array") message) w e w2
             (eq_trans Hgot (bind_throw _ _ _ _ _ Hd))).
Qed.

Lemma assertObject_cases x message w :
  if isObject (w_heap w) x
  then passes w (assertObject x message VUndefined w)
  else throws_failure (default (u "Expected object") message) w
         (assertObject x message VUndefined w).
Proof.
  pose proof (guarded_assert_pure (isObject (w_heap w) x)
                (let* h' := get_heap in
                 ret (VStr (if Array_isArray h' x then u "array"
                            else if is_null x then u "null"
                            else type_name (typeof h' x))))
                (default (u "Expected object") message) w _ eq_refl) as Hcases.
  exact Hcases.
Qed.

(** X17: [assertObject] never consults [typeOfDetailed]: it passes exactly
    on the values that are objects, not [null] and not arrays, changing
    nothing but for one new object, and throws a Failure with the
    expected message on every other value. *)
Theorem assertObject_contract x message w :
  if isObject (w_heap w) x
  then passes w (assertObject x message VUndefined w)
  else throws_failure (default (u "Expected object") message) w
         (assertObject x message VUndefined w).
Proof. apply assertObject_cases. Qed.

(** X18: [assertNever] throws a Failure for every value whatsoever, and
    the [info] object of that Failure holds the value under [got]: the
    value is stored, and never summarized or read. *)
Theorem assertNever_throws x message w :
  throws_failure (default (u "Unreachable") message) w
    (assertNever stackTrace objectToString x message w)
  /\
  exists failure info ps members w',
    assertNever stackTrace objectToString x message w = (Throw (VRef failure), w')
    /\ w_heap w' !! failure
       = Some (OError CAssertError
                 (full_message (getCallerName stackTrace 3)
                    (default (u "Unreachable") message) None)
                 None ps)
    /\ assoc (u "info") ps = Some (PData (VRef info))
    /\ w_heap w' !! info = Some (OObject members)
    /\ assoc (u "got") members = Some (PData x).
Proof.
  split; [apply (assert_fails_got (default (u "Unreachable") message) x w)|].
  set (w1 := World (w_heap w ++ [OObject [(u "got", PData x)]]) (w_log w)).
  assert (Hprops : own_props (w_heap w1) (VRef (length (w_heap w)))
                   = [(u "got", PData x)]).
  { unfold own_props, w1. cbn [w_heap].
    by rewrite lookup_app_r, Nat.sub_diag by lia. }
  assert (Hrun : assertNever stackTrace objectToString x message w
                 = (Throw (VRef (length (w_heap w1))),
                    World (w_heap w1
                           ++ failure_at stackTrace (length (w_heap w1))
                                (default (u "Unreachable") message) None None
                                [(u "got", PData x)])
                          (w_log w1))).
  { apply (assert_throws_failure stackTrace objectToString (VBool false)
             (Some (default (u "Unreachable") message))
             (VRef (length (w_heap w))) w1 None [(u "got", PData x)]).
    - done.
    - unfold allocated, w1. cbn [w_heap]. rewrite length_app. cbn [length]. lia.
    - apply type_summary_no_value. rewrite Hprops. reflexivity.
    - rewrite Hprops. reflexivity. }
  eexists _, (S (length (w_heap w1))), _, _, _.
  split; [exact Hrun|]. cbn [w_heap].
  split; [apply failure_at_error|].
  split; [reflexivity|].
  split; [apply failure_at_info|reflexivity].
Qed.

Local Abbreviation expectString := (expectString stackTrace objectToString typeOfDetailed_rest).
Local Abbreviation expectNumber := (expectNumber stackTrace objectToString typeOfDetailed_rest).
Local Abbreviation expectBoolean := (expectBoolean stackTrace objectToString typeOfDetailed_rest).
Local Abbreviation expectArray := (expectArray stackTrace objectToString typeOfDetailed_rest).
Local Abbreviation expectObject := (expectObject stackTrace objectToString).
Local Abbreviation assertStringIncludesAll :=
  (assertStringIncludesAll stackTrace objectToString typeOfDetailed_rest).
Local Abbreviation assertStringIncludesAny :=
  (assertStringIncludesAny stackTrace objectToString typeOfDetailed_rest).
Local Abbreviation assertArrayIsConsistentPrimitive :=
  (assertArrayIsConsistentPrimitive stackTrace objectToString typeOfDetailed_rest).
Local Abbreviation assertSameKeys := (assertSameKeys stackTrace objectToString).
Local Abbreviation assertAllKeysSet := (assertAllKeysSet stackTrace objectToString).
Local Abbreviation assertAnyKeyNull := (assertAnyKeyNull stackTrace objectToString).

(** X19: narrowing is sound.  Whatever [info] is given and whatever
    [typeOfDetailed] does, a guard that returns has seen a value of the
    type it narrows to. *)
Theorem guards_narrow x message info w :
  (forall v w', assertString x message info w = (Ok v, w') -> exists s, x = VStr s)
  /\ (forall v w', assertNumber x message info w = (Ok v, w') ->
        exists n, x = VNum n /\ number_is_finite n = true)
  /\ (forall v w', assertBoolean x message info w = (Ok v, w') -> exists b, x = VBool b)
  /\ (forall v w', assertFunction x message info w = (Ok v, w') ->
        is_function (w_heap w) x = true)
  /\ (forall v w', assertDefined x message info w = (Ok v, w') -> x <> VUndefined)
  /\ (forall v w', assertNonNull x message info w = (Ok v, w') -> x <> VNull)
  /\ (forall v w', assertPresent x message info w = (Ok v, w') ->
        x <> VNull /\ x <> VUndefined)
  /\ (forall v w', assertArray x message info w = (Ok v, w') ->
        exists elems, is_array (w_heap w) x = Some elems)
  /\ (forall v w', assertObject x message info w = (Ok v, w') ->
        typeof (w_heap w) x = TObject /\ x <> VNull /\ is_array (w_heap w) x = None).
Proof.
  repeat apply conj; intros v w' Hok;
    try (apply assert_typed_ok_inv in Hok as [Hok _]).
  - by apply isString_inv in Hok.
  - by apply isNumber_inv in Hok.
  - by apply isBoolean_inv in Hok.
  - unfold isFunction in Hok. unfold is_function. by destruct (typeof (w_heap w) x).
  - by intros ->.
  - by intros ->.
  - split; by intros ->.
  - apply assertArray_ok_inv in Hok as [Hok _]. by apply isArray_inv in Hok.
  - apply assertObject_ok_inv in Hok as [Hok _]. by apply isObject_inv in Hok.
Qed.

(** X20: an [expect] wrapper that returns, returns its argument itself,
    and the argument has the type in the name of the wrapper. *)
Theorem expect_returns_argument x message w :
  (forall v w', expectString x message w = (Ok v, w') -> v = x /\ exists s, x = VStr s)
  /\ (forall v w', expectNumber x message w = (Ok v, w') ->
        v = x /\ exists n, x = VNum n /\ number_is_finite n = true)
  /\ (forall v w', expectBoolean x message w = (Ok v, w') ->
        v = x /\ exists b, x = VBool b)
  /\ (forall v w', expectArray x message w = (Ok v, w') ->
        v = x /\ exists elems, is_array (w_heap w) x = Some elems)
  /\ (forall v w', expectObject x message w = (Ok v, w') ->
        v = x /\ typeof (w_heap w) x = TObject /\ x <> VNull
        /\ is_array (w_heap w) x = None).
Proof.
  repeat apply conj; intros v w' Hok;
    apply bind_inv_ok in Hok as (a & w1 & Hguard & [= <- <-]); (split; [done|]).
  - apply assert_typed_ok_inv in Hguard as [Hc _]. by apply isString_inv in Hc.
  - apply assert_typed_ok_inv in Hguard as [Hc _]. by apply isNumber_inv in Hc.
  - apply assert_typed_ok_inv in Hguard as [Hc _]. by apply isBoolean_inv in Hc.
  - apply assertArray_ok_inv in Hguard as [Hc _]. by apply isArray_inv in Hc.
  - apply assertObject_ok_inv in Hguard as [Hc _]. by apply isObject_inv in Hc.
Qed.

(** ** Strings *)

(** X21: with no needles [assertStringIncludesAny] never passes, not even
    on a string; and with at least one needle, whatever passes
    [assertStringIncludesAll] passes [assertStringIncludesAny], leaving
    the same world. *)
Theorem includes_all_any x needles w :
  (forall v w', assertStringIncludesAny x [] w <> (Ok v, w'))
  /\ (forall v w',
        needles <> [] ->
        assertStringIncludesAll x needles w = (Ok v, w') ->
        assertStringIncludesAny x needles w = (Ok v, w')).
Proof.
  split.
  - intros v w' Hok. apply bind_inv_ok in Hok as (a & w1 & _ & Hok).
    by apply assert_ok_inv in Hok as [Hc _].
  - intros v w' Hne Hok. apply bind_inv_ok in Hok as (a & w1 & Hstring & Hok).
    apply assert_ok_inv in Hok as (Hall & -> & ->).
    unfold assertStringIncludesAny. erewrite bind_ok by exact Hstring.
    unfold assert.
    assert (Hany : truthy (VBool (existsb (includes (as_string x)) needles)) = true).
    { cbn [truthy] in *. destruct needles as [|n needles]; [done|].
      cbn [forallb existsb] in *. apply andb_true_iff in Hall as [-> _]. done. }
    by rewrite Hany.
Qed.

(** ** Worlds that extend one another *)

Lemma own_props_extends w w' v :
  extends w w' -> allocated (w_heap w) v ->
  own_props (w_heap w') v = own_props (w_heap w) v.
Proof.
  intros [_ Hheap] Halloc. destruct v; try reflexivity. cbn [own_props allocated] in *.
  destruct (w_heap w !! l) as [o|] eqn:Hl.
  - by rewrite (Hheap _ _ Hl).
  - apply lookup_ge_None in Hl. lia.
Qed.

Lemma is_array_extends w w' v elems :
  extends w w' -> is_array (w_heap w) v = Some elems ->
  is_array (w_heap w') v = Some elems.
Proof.
  intros [_ Hheap]. destruct v; try discriminate. cbn [is_array].
  destruct (w_heap w !! l) as [o|] eqn:Hl; [|discriminate].
  by rewrite (Hheap _ _ Hl).
Qed.

Lemma throws_failure_extends message w w1 r :
  extends w w1 -> throws_failure message w1 r -> throws_failure message w r.
Proof.
  intros Hext (e & w' & -> & Hfail & Hnew & Hmessage & Hext').
  exists e, w'. repeat split; try done.
  - destruct e; try reflexivity. cbn [instanceof_AssertError] in *.
    destruct (w_heap w !! l) as [o|] eqn:Hl; [|done].
    by rewrite (proj2 Hext _ _ Hl) in Hnew.
  - etrans; [apply Hext'|apply Hext].
  - intros l o Hl. by apply Hext', Hext.
Qed.

(** ** Arrays of one primitive type *)

Lemma forallb_pointwise {A} (f g : A -> bool) (l : list A) :
  (forall a, f a = g a) -> forallb f l = forallb g l.
Proof. intros Hfg. induction l as [|a l IH]; simpl; [done|]. by rewrite Hfg, IH. Qed.

Lemma isString_value h v :
  isString h v = match v with VStr _ => true | _ => false end.
Proof.
  unfold isString. destruct v; try reflexivity.
  cbn [typeof]. by destruct (h !! l) as [[]|].
Qed.

Lemma isNumber_value h v : isNumber h v = Number_isFinite v.
Proof.
  unfold isNumber. destruct v; try reflexivity.
  cbn [typeof]. by destruct (h !! l) as [[]|].
Qed.

Lemma isBoolean_value h v :
  isBoolean h v = match v with VBool _ => true | _ => false end.
Proof.
  unfold isBoolean. destruct v; try reflexivity.
  cbn [typeof]. by destruct (h !! l) as [[]|].
Qed.

Lemma array_items_eq h x elems : is_array h x = Some elems -> array_items h x = elems.
Proof. unfold array_items. by intros ->. Qed.

Lemma same_primitive_branches h first rest message w :
  (if isString h first
   then assert (VBool (forallb (isString h) (first :: rest))) (Some message) VUndefined
   else if isNumber h first
   then assert (VBool (forallb (isNumber h) (first :: rest))) (Some message) VUndefined
   else if isBoolean h first
   then assert (VBool (forallb (isBoolean h) (first :: rest))) (Some message) VUndefined
   else assert (VBool false) (Some message) VUndefined) w
  = assert (VBool (same_primitive (first :: rest))) (Some message) VUndefined w.
Proof.
  unfold same_primitive.
  rewrite (forallb_pointwise _ _ (first :: rest) (isString_value h)).
  rewrite (forallb_pointwise _ _ (first :: rest) (isNumber_value h)).
  rewrite (forallb_pointwise _ _ (first :: rest) (isBoolean_value h)).
  rewrite isString_value, isNumber_value, isBoolean_value.
  destruct first as [| |b|n| |s| | | | | | | |];
    cbn [forallb Number_isFinite andb orb]; try reflexivity.
  - destruct (number_is_finite n); cbn [andb orb]; [|reflexivity].
    by rewrite orb_false_r.
  - by rewrite !orb_false_r.
Qed.

(** X22: on the arrays of the model, which have no holes,
    [assertArrayIsConsistentPrimitive] returns exactly on the non-empty
    arrays of strings only, of finite numbers only, or of booleans only;
    an array that holds [NaN] or an infinity is refused.  Where it
    returns it leaves one new object and changes nothing else. *)
Theorem assertArrayIsConsistentPrimitive_contract x message w :
  match assertArrayIsConsistentPrimitive x message w with
  | (Ok v, w') =>
      passes w (Ok v, w')
      /\ exists elems, is_array (w_heap w) x = Some elems
                       /\ same_primitive elems = true
  | (Throw e, w') =>
      forall elems, is_array (w_heap w) x = Some elems ->
                    same_primitive elems = false
  end.
Proof.
  unfold assertArrayIsConsistentPrimitive.
  destruct (isArray (w_heap w) x) eqn:Harr.
  - pose proof (assertArray_passes x (Some (u "Expected array")) w Harr) as Hpasses.
    destruct (passes_inv _ _ Hpasses) as (w1 & Hpass & Hext).
    erewrite bind_ok by exact Hpass. unfold bind at 1, get_heap.
    apply isArray_inv in Harr as [elems Harr].
    rewrite (array_items_eq _ _ _ (is_array_extends _ _ _ _ Hext Harr)).
    destruct elems as [|first rest].
    + destruct (assert_fails (u "Expected array to be non-empty") w1)
        as (e & w' & Hthrow & _).
      change (0 <? length []) with false.
      erewrite bind_throw by exact Hthrow.
      intros elems. rewrite Harr. by intros [= <-].
    + change (0 <? length (first :: rest)) with true.
      erewrite bind_ok by reflexivity.
      change (default VUndefined ((first :: rest) !! 0)) with first.
      rewrite same_primitive_branches.
      pose proof (assert_plain (same_primitive (first :: rest))
                    (default (u "Expected non-empty array of the same primitive type")
                       message) w1) as Hcases.
      cbv zeta in Hcases.
      destruct (same_primitive (first :: rest)) eqn:Hsame.
      * rewrite Hcases. rewrite Hpass in Hpasses.
        split; [exact Hpasses|]. by exists (first :: rest).
      * destruct Hcases as (e & w' & -> & _). intros elems. rewrite Harr.
        by intros [= <-].
  - destruct (assertArray x (Some (u "Expected array")) VUndefined w)
      as [[v|e] w1] eqn:Hguard.
    + apply assertArray_ok_inv in Hguard as [Hguard _]. congruence.
    + erewrite bind_throw by exact Hguard. intros elems Helems.
      unfold isArray, Array_isArray in Harr. by rewrite Helems in Harr.
Qed.

(** ** Objects and their keys *)

Lemma assertObject_passes_world x w :
  isObject (w_heap w) x = true ->
  exists w1,
    (forall message, assertObject x message VUndefined w = (Ok VUndefined, w1))
    /\ extends w w1.
Proof.
  intros Hobj. eexists. split; [intros message|].
  - unfold assertObject. unfold bind at 1, get_heap. rewrite guarded_assert.
    unfold bind at 1, get_heap, ret, with_literal. cbn [w_heap w_log].
    rewrite store_last, Hobj. reflexivity.
  - apply (extends_alloc w).
Qed.

Lemma isObject_not_nullish h x : isObject h x = true -> is_nullish x = false.
Proof. unfold isObject. by destruct x. Qed.

Lemma Object_keys_of_ok x w :
  is_nullish x = false ->
  Object_keys_of x w = (Ok (Object_keys (w_heap w) x), w).
Proof. unfold Object_keys_of. by intros ->. Qed.

Lemma Object_keys_of_nullish x w :
  is_nullish x = true ->
  exists e w', Object_keys_of x w = (Throw e, w')
               /\ instanceof_AssertError (w_heap w') e = false.
Proof.
  unfold Object_keys_of. intros ->. eexists _, _. split; [reflexivity|].
  cbn [w_heap instanceof_AssertError].
  by rewrite lookup_app_r, Nat.sub_diag by lia.
Qed.

(** X23: [assertSameKeys] compares the keys as sets of names: it returns
    exactly when [obj] is an object, [expected] is neither [null] nor
    [undefined], and the keys of the one are the keys of the other in
    some order.  A [null] or [undefined] [expected] gives an exception
    that is not a Failure; every other refusal is a Failure. *)
Theorem assertSameKeys_contract obj expected message w :
  allocated (w_heap w) obj ->
  allocated (w_heap w) expected ->
  match assertSameKeys obj expected message w with
  | (Ok v, w') =>
      isObject (w_heap w) obj = true
      /\ is_nullish expected = false
      /\ Object_keys (w_heap w) obj ≡ₚ Object_keys (w_heap w) expected
  | (Throw e, w') =>
      if isObject (w_heap w) obj && is_nullish expected
      then instanceof_AssertError (w_heap w') e = false
      else instanceof_AssertError (w_heap w') e = true
           /\ (isObject (w_heap w) obj = false
               \/ ~ Object_keys (w_heap w) obj ≡ₚ Object_keys (w_heap w) expected)
  end.
Proof.
  intros Hobj_alloc Hexp_alloc. unfold assertSameKeys.
  destruct (isObject (w_heap w) obj) eqn:Hobj.
  - destruct (assertObject_passes_world obj w Hobj) as (w1 & Hpass & Hext).
    erewrite bind_ok by apply Hpass.
    erewrite bind_ok
      by (apply Object_keys_of_ok; eapply isObject_not_nullish; exact Hobj).
    destruct (is_nullish expected) eqn:Hnull.
    + destruct (Object_keys_of_nullish expected w1 Hnull) as (e & w' & Hthrow & He).
      erewrite bind_throw by exact Hthrow. exact He.
    + erewrite bind_ok by (apply Object_keys_of_ok; exact Hnull).
      unfold Object_keys.
      rewrite !(own_props_extends w w1) by done.
      set (a := map fst (own_props (w_heap w) obj)).
      set (b := map fst (own_props (w_heap w) expected)).
      pose proof (assert_plain (same_items (sort_keys a) (sort_keys b))
                    (default (u "Expected same keys") message) w1) as Hcases.
      cbv zeta in Hcases.
      destruct (same_items (sort_keys a) (sort_keys b)) eqn:Hsame.
      * rewrite Hcases. repeat split.
        by apply sort_keys_eq, same_items_eq.
      * destruct Hcases as (e & w' & -> & Hfail & _). cbn [andb].
        split; [exact Hfail|]. right. intros Hperm.
        apply sort_keys_eq, same_items_eq in Hperm. congruence.
  - pose proof (assertObject_cases obj (Some (default (u "Expected object") message)) w)
      as Hcases.
    rewrite Hobj in Hcases. destruct Hcases as (e & w' & Hthrow & Hfail & _).
    erewrite bind_throw by exact Hthrow. cbn [andb]. split; [exact Hfail|by left].
Qed.

Lemma Object_values_world x w vals w' :
  Object_values x w = (Ok vals, w') -> w' = w.
Proof.
  unfold Object_values. destruct (is_nullish x); [discriminate|].
  unfold bind, spread. destruct (spread_props _); [|discriminate].
  by intros [= _ <-].
Qed.

Lemma some_null_not_all_set (vals : list value) :
  existsb is_null vals = true ->
  forallb (fun v => negb (is_null v) && negb (is_undefined v)) vals = false.
Proof.
  induction vals as [|v vals IH]; [discriminate|]. cbn [existsb forallb].
  destruct (is_null v); [done|]. cbn [orb negb andb]. intros Hrest.
  rewrite (IH Hrest). apply andb_false_r.
Qed.

(** X24: no object passes both [assertAnyKeyNull] and [assertAllKeysSet]:
    where the first returns, the second throws a Failure. *)
Theorem keys_null_not_all_set obj message message' w v w1 :
  assertAnyKeyNull obj message w = (Ok v, w1) ->
  throws_failure (default (u "Expected all keys to be set (not null/undefined)") message')
    w (assertAllKeysSet obj message' w).
Proof.
  intros Hok. apply bind_inv_ok in Hok as (a & w2 & Hobj & Hok).
  apply bind_inv_ok in Hok as (vals & w3 & Hvals & Hok).
  apply assert_ok_inv in Hok as (Hany & _ & _).
  pose proof (Object_values_world _ _ _ _ Hvals) as ->.
  destruct (assertObject_passes_world obj w) as (w2' & Hpass & Hext).
  { by apply assertObject_ok_inv in Hobj as [Hobj _]. }
  rewrite Hpass in Hobj. injection Hobj as <- <-.
  unfold assertAllKeysSet. erewrite bind_ok by apply Hpass.
  erewrite bind_ok by exact Hvals.
  cbn [truthy] in Hany. rewrite (some_null_not_all_set _ Hany).
  eapply throws_failure_extends; [exact Hext|]. apply assert_fails.
Qed.

(** ** Arrays whose items are all alike *)

Local Abbreviation assertArrayOnlyHasStrings :=
  (assertArrayOnlyHasStrings stackTrace objectToString typeOfDetailed_rest).
Local Abbreviation assertArrayOnlyHasNumbers :=
  (assertArrayOnlyHasNumbers stackTrace objectToString typeOfDetailed_rest).
Local Abbreviation assertArrayEveryIsTruthy :=
  (assertArrayEveryIsTruthy stackTrace objectToString typeOfDetailed_rest).
Local Abbreviation assertArrayEveryIsFalsy :=
  (assertArrayEveryIsFalsy stackTrace objectToString typeOfDetailed_rest).
Local Abbreviation assertNonEmptyString :=
  (assertNonEmptyString stackTrace objectToString typeOfDetailed_rest).
Local Abbreviation assertArrayNotEmpty :=
  (assertArrayNotEmpty stackTrace objectToString typeOfDetailed_rest).
Local Abbreviation assertNonEmptyRecord :=
  (assertNonEmptyRecord stackTrace objectToString).
Local Abbreviation assertTrue := (assertTrue stackTrace objectToString).
Local Abbreviation assertFalse := (assertFalse stackTrace objectToString).
Local Abbreviation assertNull := (assertNull stackTrace objectToString).
Local Abbreviation assertUndefined := (assertUndefined stackTrace objectToString).

(** The shape [assertArray(x, m1); assert(arr.every(p), m2)]. *)
Lemma array_every (p : heap -> value -> bool) (q : value -> bool) m1 m2 x w :
  (forall h v, p h v = q v) ->
  array_every_contract q x w
    ((let* _ := assertArray x (Some m1) VUndefined in
      let* h := get_heap in
      assert (VBool (forallb (p h) (array_items h x))) (Some m2) VUndefined) w).
Proof.
  intros Hpq. unfold array_every_contract.
  destruct (isArray (w_heap w) x) eqn:Harr.
  - destruct (passes_inv _ _ (assertArray_passes x (Some m1) w Harr))
      as (w1 & Hpass & Hext).
    erewrite bind_ok by exact Hpass. unfold bind at 1, get_heap.
    apply isArray_inv in Harr as [elems Harr].
    rewrite (array_items_eq _ _ _ (is_array_extends _ _ _ _ Hext Harr)).
    rewrite (forallb_pointwise _ q elems (Hpq (w_heap w1))).
    pose proof (assert_plain (forallb q elems) m2 w1) as Hcases.
    cbv zeta in Hcases. destruct (forallb q elems) eqn:Hall.
    + rewrite Hcases. repeat split; [apply Hext..|]. by exists elems.
    + destruct Hcases as (e & w' & -> & _). intros elems'. rewrite Harr.
      by intros [= <-].
  - destruct (assertArray x (Some m1) VUndefined w) as [[v|e] w1] eqn:Hguard.
    + apply assertArray_ok_inv in Hguard as [Hguard _]. congruence.
    + erewrite bind_throw by exact Hguard. intros elems Helems.
      unfold isArray, Array_isArray in Harr. by rewrite Helems in Harr.
Qed.


(** ** Values that must not be empty *)

(** X26: the guards against empty values narrow soundly: what
    [assertNonEmptyString] lets through is a string with at least one
    code unit, what [assertArrayNotEmpty] lets through is an array with at
    least one item, and what [assertNonEmptyRecord] lets through is an
    object, not an array, with at least one own enumerable key. *)
Theorem nonempty_guards_narrow x message w :
  (forall v w', assertNonEmptyString x message w = (Ok v, w') ->
     exists c s, x = VStr (c :: s))
  /\ (forall v w', assertArrayNotEmpty x message w = (Ok v, w') ->
        exists first rest, is_array (w_heap w) x = Some (first :: rest))
  /\ (forall v w', allocated (w_heap w) x ->
        assertNonEmptyRecord x message w = (Ok v, w') ->
        isObject (w_heap w) x = true /\ Object_keys (w_heap w) x <> []).
Proof.
  repeat apply conj.
  - intros v w' Hok. apply bind_inv_ok in Hok as (a & w1 & Hstring & Hok).
    apply assert_typed_ok_inv in Hstring as [Hstring _].
    apply isString_inv in Hstring as [s ->].
    apply assert_ok_inv in Hok as (Hlen & _ & _).
    destruct s as [|c s]; [discriminate|]. by exists c, s.
  - intros v w' Hok. apply bind_inv_ok in Hok as (a & w1 & Harray & Hok).
    pose proof Harray as Hguard. apply assertArray_ok_inv in Hguard as [Hguard _].
    destruct (passes_inv _ _
                (assertArray_passes x
                   (Some (default (u "Expected non-empty array") message)) w Hguard))
      as (w1' & Hpass & Hext).
    pose proof (eq_trans (eq_sym Hpass) Harray) as Hsame. injection Hsame as <- <-.
    apply isArray_inv in Hguard as [elems Harr].
    unfold bind at 1, get_heap in Hok.
    rewrite (array_items_eq _ _ _ (is_array_extends _ _ _ _ Hext Harr)) in Hok.
    apply assert_ok_inv in Hok as (Hlen & _ & _).
    destruct elems as [|first rest]; [discriminate|]. by exists first, rest.
  - intros v w' Halloc Hok. apply bind_inv_ok in Hok as (a & w1 & Hobject & Hok).
    pose proof Hobject as Hguard. apply assertObject_ok_inv in Hguard as [Hguard _].
    destruct (assertObject_passes_world x w Hguard) as (w1' & Hpass & Hext).
    pose proof (eq_trans (eq_sym (Hpass _)) Hobject) as Hsame.
    injection Hsame as <- <-.
    rewrite (bind_ok _ _ _ _ _
               (Object_keys_of_ok x w1' (isObject_not_nullish _ _ Hguard))) in Hok.
    apply assert_ok_inv in Hok as (Hlen & _ & _).
    split; [exact Hguard|]. unfold Object_keys in *.
    rewrite (own_props_extends w w1') in Hlen by done.
    intros Hnil. rewrite Hnil in Hlen. discriminate.
Qed.

(** ** [true], [false], [null] and [undefined] themselves *)

(** X27: [assertTrue], [assertFalse], [assertNull] and [assertUndefined]
    compare strictly.  Each returns, changing nothing, exactly on the one
    value it names, and throws a Failure on every other value: a truthy
    value does not pass [assertTrue], and [undefined] does not pass
    [assertNull]. *)
Theorem strict_guards_contract x message w :
  strict_contract stackTrace (VBool true) (u "Expected true") x message w
    (assertTrue x message w)
  /\ strict_contract stackTrace (VBool false) (u "Expected false") x message w
       (assertFalse x message w)
  /\ strict_contract stackTrace VNull (u "Expected null") x message w
       (assertNull x message w)
  /\ strict_contract stackTrace VUndefined (u "Expected undefined") x message w
       (assertUndefined x message w).
Proof.
  unfold strict_contract. repeat apply conj.
  - intros ->. reflexivity.
  - intros Hx.
    pose proof (assert_plain (is_true x) (default (u "Expected true") message) w) as H.
    by destruct x as [| |[]| | | | | | | | | | |].
  - intros ->. reflexivity.
  - intros Hx.
    pose proof (assert_plain (is_false x) (default (u "Expected false") message) w) as H.
    by destruct x as [| |[]| | | | | | | | | | |].
  - intros ->. reflexivity.
  - intros Hx.
    pose proof (assert_plain (is_null x) (default (u "Expected null") message) w) as H.
    by destruct x.
  - intros ->. reflexivity.
  - intros Hx.
    pose proof (assert_plain (is_undefined x) (default (u "Expected undefined") message) w)
      as H.
    by destruct x.
Qed.

End GuardProperties.

(** ** The further properties on the sample programs *)

Lemma new_AssertError_message_witness :
  new_AssertError Demo.stackTrace Demo.objectToString (u "custom")
    Demo.fourNumbersInfo VUndefined Demo.start
  = (Ok (VRef 21),
     snd (new_AssertError Demo.stackTrace Demo.objectToString (u "custom")
            Demo.fourNumbersInfo VUndefined Demo.start))
  /\ exists l text kept ps,
       VRef 21 = VRef l
       /\ w_heap (snd (new_AssertError Demo.stackTrace Demo.objectToString (u "custom")
                         Demo.fourNumbersInfo VUndefined Demo.start)) !! l
          = Some (OError CAssertError text kept ps)
       /\ text <> []
       /\ is_prefix (u "custom") text = true.
Proof.
  assert (H : new_AssertError Demo.stackTrace Demo.objectToString (u "custom")
                Demo.fourNumbersInfo VUndefined Demo.start
              = (Ok (VRef 21),
                 snd (new_AssertError Demo.stackTrace Demo.objectToString (u "custom")
                        Demo.fourNumbersInfo VUndefined Demo.start)))
    by (vm_compute; reflexivity).
  split; [exact H|].
  destruct (new_AssertError_message _ _ _ _ _ _ _ _ H)
    as (l & text & kept & ps & He & Hl & Hne & _ & Hprefix & _).
  exists l, text, kept, ps. repeat split; try assumption.
  apply Hprefix. vm_compute. discriminate.
Defined.

Lemma summarizeValue_object_witness :
  typeof Samples.objects Samples.record = TObject
  /\ is_array Samples.objects Samples.record = None
  /\ summarizeValue Samples.objectToString Samples.record Samples.start
     = (Ok (u "object(keys=[a, b, c])"), Samples.start).
Proof.
  split; [reflexivity|]. split; [reflexivity|].
  etrans;
    [apply (summarizeValue_object Samples.objectToString Samples.record Samples.start);
     reflexivity|].
  vm_compute. reflexivity.
Defined.

Lemma toAssertError_idempotent_witness :
  Demo.toAssertError (VStr (u "boom")) Demo.start
  = (Ok (VRef 23), snd (Demo.toAssertError (VStr (u "boom")) Demo.start))
  /\ Demo.toAssertError (VRef 23) (snd (Demo.toAssertError (VStr (u "boom")) Demo.start))
     = (Ok (VRef 23), snd (Demo.toAssertError (VStr (u "boom")) Demo.start)).
Proof.
  assert (H : Demo.toAssertError (VStr (u "boom")) Demo.start
              = (Ok (VRef 23), snd (Demo.toAssertError (VStr (u "boom")) Demo.start)))
    by (vm_compute; reflexivity).
  split; [exact H|].
  exact (toAssertError_idempotent Demo.stackTrace Demo.objectToString
           (VStr (u "boom")) Demo.start (VRef 23)
           (snd (Demo.toAssertError (VStr (u "boom")) Demo.start)) H).
Defined.



Lemma wrapSync_not_callable_witness :
  exists wrapped,
    wrapSync (VNum (NInt 0)) (VNum (NInt 5)) Demo.notifyQuietly Demo.start
    = (Ok wrapped, Demo.start)
    /\ Demo.apply wrapped [] Demo.start
       = (Throw (VRef 21),
          World (Demo.objects ++ [OError CTypeError (u "fn is not a function") None []])
                []).
Proof.
  exact (wrapSync_not_callable Demo.call Demo.stackTrace Demo.objectToString
           (VNum (NInt 0)) (VNum (NInt 5)) Demo.notifyQuietly Demo.quietCallback
           (VBool false) Demo.start [] Demo.start eq_refl eq_refl eq_refl).
Defined.

Lemma wrapSync_nested_witness :
  Demo.apply (VWrapSync (VNum (NInt 2))
                (VWrapSync (VNum (NInt 1)) Demo.failsAssert Demo.quietCallback
                   (VBool false))
                Demo.throwingCallback (VBool true))
    [] Demo.start
  = (Ok (VNum (NInt 1)),
     snd (Demo.apply Demo.quietCallback [VRef 21]
            (snd (Demo.apply Demo.failsAssert [] Demo.start)))).
Proof.
  apply (wrapSync_nested Demo.call Demo.stackTrace Demo.objectToString
           (VNum (NInt 1)) (VNum (NInt 2)) Demo.failsAssert
           Demo.quietCallback Demo.throwingCallback (VBool false) (VBool true) []
           Demo.start (VRef 21) (snd (Demo.apply Demo.failsAssert [] Demo.start))).
  - vm_compute. reflexivity.
  - vm_compute. reflexivity.
  - eapply routed_notified; [reflexivity|]. vm_compute. reflexivity.
Defined.

Lemma Samples_reads_only : reads_only Samples.typeOfDetailed_rest.
Proof. intros x w b w' H. by injection H as _ <-. Qed.

Lemma noDOM_reads_only : reads_only Samples.noDOM.
Proof. intros x w b w' H. discriminate H. Qed.

Lemma typeOfDetailed_array_witness :
  typeOfDetailed Samples.typeOfDetailed_rest Demo.fourNumbers Demo.start
  = summarizeValue Demo.objectToString Demo.fourNumbers Demo.start
  /\ typeOfDetailed Samples.typeOfDetailed_rest Samples.nothing Samples.start
     = (Ok (u "array(len=0)"), Samples.start)
  /\ summarizeValue Samples.objectToString Samples.nothing Samples.start
     = (Ok (u "array(len=0, sample=[])"), Samples.start).
Proof.
  split.
  - exact (typeOfDetailed_array Demo.objectToString Samples.typeOfDetailed_rest
             Demo.fourNumbers _ Demo.start eq_refl).
  - exact (typeOfDetailed_array Samples.objectToString Samples.typeOfDetailed_rest
             Samples.nothing [] Samples.start eq_refl).
Defined.

(** A string passes [assertString] where [typeOfDetailed] answers, [NaN]
    is refused by [assertNumber], and where the global that
    [typeOfDetailed] inspects is missing, [assertString] throws on a
    string. *)
Lemma typed_guards_contract_witness :
  reads_only Samples.typeOfDetailed_rest
  /\ passes Samples.start
       (assertString Samples.stackTrace Samples.objectToString Samples.typeOfDetailed_rest
          (VStr (u "x")) None VUndefined Samples.start)
  /\ throws_failure Samples.stackTrace (u "Expected number") Samples.start
       (assertNumber Samples.stackTrace Samples.objectToString Samples.typeOfDetailed_rest
          (VNum NNaN) None VUndefined Samples.start)
  /\ assertString Samples.stackTrace Samples.objectToString Samples.noDOM
       (VStr (u "x")) None VUndefined Samples.start
     = (Throw (VRef 13),
        World (Samples.objects
               ++ [OObject [];
                   OError CTypeError (u "HTMLElement is not defined") None []]) []).
Proof.
  split; [exact Samples_reads_only|].
  destruct (typed_guards_contract Samples.stackTrace Samples.objectToString
              Samples.typeOfDetailed_rest Samples_reads_only)
    as (Hstring & Hnumber & _).
  destruct (typed_guards_contract Samples.stackTrace Samples.objectToString
              Samples.noDOM noDOM_reads_only)
    as (Hmissing & _).
  split; [exact (Hstring (VStr (u "x")) None Samples.start)|].
  split; [exact (Hnumber (VNum NNaN) None Samples.start)|].
  exact (Hmissing (VStr (u "x")) None Samples.start).
Defined.

Lemma assertArray_contract_witness :
  passes Samples.start
    (assertArray Samples.stackTrace Samples.objectToString Samples.noDOM
       Samples.words None VUndefined Samples.start)
  /\ throws_failure Samples.stackTrace (u "Expected array") Samples.start
       (assertArray Samples.stackTrace Samples.objectToString Samples.typeOfDetailed_rest
          Samples.ab None VUndefined Samples.start).
Proof.
  split.
  - exact (assertArray_contract Samples.stackTrace Samples.objectToString Samples.noDOM
             Samples.words None Samples.start).
  - exact (assertArray_contract Samples.stackTrace Samples.objectToString
             Samples.typeOfDetailed_rest Samples.ab None Samples.start
             Samples_reads_only).
Defined.

Lemma assertSameKeys_contract_witness :
  allocated Samples.objects Samples.ba
  /\ allocated Samples.objects Samples.ab
  /\ (exists w', assertSameKeys Samples.stackTrace Samples.objectToString
                   Samples.ba Samples.ab None Samples.start = (Ok VUndefined, w'))
  /\ Object_keys Samples.objects Samples.ba ≡ₚ Object_keys Samples.objects Samples.ab.
Proof.
  assert (Hba : allocated (w_heap Samples.start) Samples.ba) by (vm_compute; lia).
  assert (Hab : allocated (w_heap Samples.start) Samples.ab) by (vm_compute; lia).
  split; [exact Hba|]. split; [exact Hab|].
  pose proof (assertSameKeys_contract Samples.stackTrace Samples.objectToString
                Samples.ba Samples.ab None Samples.start Hba Hab) as H.
  destruct (assertSameKeys Samples.stackTrace Samples.objectToString
              Samples.ba Samples.ab None Samples.start) as [[v|e] w'] eqn:Hrun.
  - split; [|apply H]. exists w'. f_equal. f_equal.
    vm_compute in Hrun. by injection Hrun as <- _.
  - vm_compute in Hrun. discriminate Hrun.
Defined.

Lemma keys_null_not_all_set_witness :
  assertAnyKeyNull Samples.stackTrace Samples.objectToString Samples.ba None Samples.start
  = (Ok VUndefined,
     snd (assertAnyKeyNull Samples.stackTrace Samples.objectToString Samples.ba None
            Samples.start))
  /\ throws_failure Samples.stackTrace
       (u "Expected all keys to be set (not null/undefined)") Samples.start
       (assertAllKeysSet Samples.stackTrace Samples.objectToString Samples.ba None
          Samples.start).
Proof.
  assert (H : assertAnyKeyNull Samples.stackTrace Samples.objectToString Samples.ba None
                Samples.start
              = (Ok VUndefined,
                 snd (assertAnyKeyNull Samples.stackTrace Samples.objectToString
                        Samples.ba None Samples.start)))
    by (vm_compute; reflexivity).
  split; [exact H|].
  exact (keys_null_not_all_set Samples.stackTrace Samples.objectToString
           Samples.ba None None Samples.start _ _ H).
Defined.
